(** * ImageConverter: a shallow embedding of the React component
      [Front/src/components/image_converter/ImageConverter.tsx]

    The component keeps seven [useState] cells, creates and revokes blob
    URLs through the browser's URL store, and converts the loaded image
    asynchronously ([img.onload], then the [canvas.toBlob] callback).

    How the source is read:
    - a render closes over the values of the seven cells; every handler
      created by that render reads those constants, also when it runs
      later (the two asynchronous callbacks of [convertOnly]).  Handlers
      therefore take the render [r] they were created by as an argument,
      next to the world they act on;
    - [setX] calls write the committed state of the world; the next
      gesture is served by the handlers of the render of that state;
    - the blob URL store is a finite map from locators to the objects
      they designate, with a counter for fresh locators and a log of the
      [revokeObjectURL] calls;
    - the platform (image decoding, the canvas encoder) is the
      environment: it decides when a load completes, whether a 2D context
      exists, and what the encoder delivers.  A delivered blob records
      the MIME type and quality the encoder was called with;
    - [zoomLevel], [quality] and the pointer geometry of the comparison
      slider are binary64 numbers (primitive floats), so zooming and the
      split position round exactly as they do in the browser; a style
      the slider writes is recorded by the number its template literal
      interpolates.  Byte sizes are natural numbers (dividing one by
      1024 or 1048576 is exact in binary64). *)

From Stdlib Require Import ZArith NArith QArith Qpower Qround Qabs Lqa Lia Floats.
From Stdlib Require Import String Ascii DecimalString DecimalFacts DecimalN.
From stdpp Require Import base option list gmap.

#[local] Set Warnings "-inexact-float".
Local Open Scope bool_scope.
Local Open Scope string_scope.

(** ** Platform primitives *)

Module JS.

(** [Math.min] and [Math.max] on binary64: NaN is contagious and
    [-0] is below [+0]. *)
Definition Math_min (x y : float) : float :=
  if is_nan x || is_nan y then nan
  else if (x <? y)%float then x
  else if (y <? x)%float then y
  else if get_sign x then x else y.

Definition Math_max (x y : float) : float :=
  if is_nan x || is_nan y then nan
  else if (x <? y)%float then y
  else if (y <? x)%float then x
  else if get_sign x then y else x.

(** [String.prototype.split] with a one-character separator. *)
Fixpoint split (sep : ascii) (s : string) : list string :=
  match s with
  | EmptyString => [EmptyString]
  | String c s' =>
      if Ascii.eqb c sep then EmptyString :: split sep s'
      else match split sep s' with
           | x :: xs => String c x :: xs
           | [] => [String c EmptyString]
           end
  end.

(** Template-literal conversion of a non-negative integer. *)
Definition Number_toString (n : N) : string :=
  NilZero.string_of_uint (N.to_uint n).

(** [Number.prototype.toFixed(1)] on a non-negative value [x]: take
    the integer [n] for which [n / 10 - x] is as close to zero as
    possible, the larger one if there are two; print [n] with one
    digit after the point. *)
Definition toFixed1_digits (x : Q) : Z := Qfloor (x * 10 + (1 # 2))%Q.

Definition print_tenths (t : Z) : string :=
  Number_toString (Z.to_N (t / 10)) ++ "." ++ Number_toString (Z.to_N (t mod 10)).

Definition Number_toFixed1 (x : Q) : string := print_tenths (toFixed1_digits x).

(** [String.prototype.startsWith]. *)
Definition startsWith (p s : string) : bool := String.prefix p s.

End JS.

(** ** Data model *)

Inductive Format := jpeg | png | webp | avif.

Definition format_name (f : Format) : string :=
  match f with jpeg => "jpeg" | png => "png" | webp => "webp" | avif => "avif" end.

Definition formats : list Format := [jpeg; png; webp; avif].

(** A [File]: declared MIME type, size in bytes, and an identity
    standing for its bytes. *)
Record File := { file_type : string; file_size : N; file_id : nat }.

(** A [Blob] delivered by [canvas.toBlob]: its size, and the arguments
    the encoder was called with to produce it. *)
Record Blob := {
  blob_size : N;
  blob_type : string;
  blob_quality : float;
  blob_source : File
}.

(** Locators handed out by [URL.createObjectURL]. *)
Abbreviation Url := nat (only parsing).

Inductive Obj := OFile (f : File) | OBlob (b : Blob).

(** The seven [useState] cells.  A value of this type is both the
    committed state and what one render closes over. *)
Record State := {
  file : option File;
  format : Format;
  quality : float;
  convertedUrl : option Url;
  convertedBlob : option Blob;
  originalUrl : option Url;
  zoomLevel : float
}.

Definition initial_state : State :=
  {| file := None; format := jpeg; quality := 0.8%float;
     convertedUrl := None; convertedBlob := None; originalUrl := None;
     zoomLevel := 1%float |}.

(** One call of [convertOnly]: the render whose [convertOnly] it was,
    the file it was given, and how far it has got. *)
Inductive Stage :=
  | Loading                                   (* waiting for [img.onload] *)
  | Encoding (mime : string) (q : float)      (* [canvas.toBlob] called *)
  | Finished.

Record Task := { task_render : State; task_input : File; task_stage : Stage }.

Record World := {
  st : State;                       (* committed React state *)
  urls : gmap Url Obj;              (* live object URLs *)
  next_url : Url;                   (* next locator to hand out *)
  revoked : list Url;               (* every [revokeObjectURL] call, newest first *)
  tasks : list Task;                (* conversions issued so far *)
  downloads : list (string * Url)   (* [link.click()] calls: file name, href *)
}.

Definition initial_world : World :=
  {| st := initial_state; urls := ∅; next_url := 0; revoked := [];
     tasks := []; downloads := [] |}.

(** ** Handlers are state transformers over the world *)

Definition M (A : Type) : Type := World → A * World.

Definition ret {A} (a : A) : M A := λ w, (a, w).
Definition bind {A B} (m : M A) (k : A → M B) : M B :=
  λ w, let (a, w') := m w in k a w'.
Definition exec {A} (m : M A) (w : World) : World := snd (m w).

Declare Scope handler_scope.
Delimit Scope handler_scope with handler.
Notation "'let!' x ':=' m 'in' k" := (bind m (λ x, k))
  (at level 10, x name, m at level 100, k at level 200) : handler_scope.
Notation "m ';;' k" := (bind m (λ _, k))
  (at level 100, k at level 200, right associativity) : handler_scope.
Notation "'skip'" := (ret tt) : handler_scope.
Local Open Scope handler_scope.

Definition modify_state (f : State → State) : M unit :=
  λ w, (tt, {| st := f (st w); urls := urls w; next_url := next_url w;
               revoked := revoked w; tasks := tasks w; downloads := downloads w |}).

Definition setFile (v : option File) : M unit :=
  modify_state (λ s, {| file := v; format := format s; quality := quality s;
      convertedUrl := convertedUrl s; convertedBlob := convertedBlob s;
      originalUrl := originalUrl s; zoomLevel := zoomLevel s |}).
Definition setFormat (v : Format) : M unit :=
  modify_state (λ s, {| file := file s; format := v; quality := quality s;
      convertedUrl := convertedUrl s; convertedBlob := convertedBlob s;
      originalUrl := originalUrl s; zoomLevel := zoomLevel s |}).
Definition setQuality (v : float) : M unit :=
  modify_state (λ s, {| file := file s; format := format s; quality := v;
      convertedUrl := convertedUrl s; convertedBlob := convertedBlob s;
      originalUrl := originalUrl s; zoomLevel := zoomLevel s |}).
Definition setConvertedUrl (v : option Url) : M unit :=
  modify_state (λ s, {| file := file s; format := format s; quality := quality s;
      convertedUrl := v; convertedBlob := convertedBlob s;
      originalUrl := originalUrl s; zoomLevel := zoomLevel s |}).
Definition setConvertedBlob (v : option Blob) : M unit :=
  modify_state (λ s, {| file := file s; format := format s; quality := quality s;
      convertedUrl := convertedUrl s; convertedBlob := v;
      originalUrl := originalUrl s; zoomLevel := zoomLevel s |}).
Definition setOriginalUrl (v : option Url) : M unit :=
  modify_state (λ s, {| file := file s; format := format s; quality := quality s;
      convertedUrl := convertedUrl s; convertedBlob := convertedBlob s;
      originalUrl := v; zoomLevel := zoomLevel s |}).
(** [setZoomLevel] is used with a constant and with an updater
    function; the updater receives the committed value. *)
Definition setZoomLevel (f : float → float) : M unit :=
  modify_state (λ s, {| file := file s; format := format s; quality := quality s;
      convertedUrl := convertedUrl s; convertedBlob := convertedBlob s;
      originalUrl := originalUrl s; zoomLevel := f (zoomLevel s) |}).

(** [URL.createObjectURL]: a fresh locator for the object. *)
Definition URL_createObjectURL (o : Obj) : M Url :=
  λ w, (next_url w,
        {| st := st w; urls := <[next_url w := o]> (urls w);
           next_url := S (next_url w); revoked := revoked w;
           tasks := tasks w; downloads := downloads w |}).

(** [URL.revokeObjectURL]: the locator stops designating anything;
    revoking a locator that is not live changes nothing in the store. *)
Definition URL_revokeObjectURL (u : Url) : M unit :=
  λ w, (tt,
        {| st := st w; urls := delete u (urls w); next_url := next_url w;
           revoked := u :: revoked w; tasks := tasks w; downloads := downloads w |}).

Definition spawn (t : Task) : M unit :=
  λ w, (tt,
        {| st := st w; urls := urls w; next_url := next_url w;
           revoked := revoked w; tasks := tasks w ++ [t]; downloads := downloads w |}).

Definition set_stage (i : nat) (t : Task) (s : Stage) : M unit :=
  λ w, (tt,
        {| st := st w; urls := urls w; next_url := next_url w; revoked := revoked w;
           tasks := <[i := {| task_render := task_render t; task_input := task_input t;
                              task_stage := s |}]> (tasks w);
           downloads := downloads w |}).

Definition link_click (name : string) (href : Url) : M unit :=
  λ w, (tt,
        {| st := st w; urls := urls w; next_url := next_url w; revoked := revoked w;
           tasks := tasks w; downloads := downloads w ++ [(name, href)] |}).

(** ** The component's handlers *)

(** [convertOnly]: a locator for the input is made for [img.src], and
    the rest waits for the image to load. *)
Definition convertOnly (r : State) (inputFile : File) : M unit :=
  let! _src := URL_createObjectURL (OFile inputFile) in
  spawn {| task_render := r; task_input := inputFile; task_stage := Loading |}.

(** [img.onload] of task [i]; [ctx] tells whether
    [canvas.getContext("2d")] gave a context. *)
Definition img_onload (i : nat) (ctx : bool) : M unit :=
  λ w, match tasks w !! i with
       | Some ({| task_stage := Loading |} as t) =>
           if negb ctx then set_stage i t Finished w
           else set_stage i t
                  (Encoding ("image/" ++ format_name (format (task_render t)))
                            (quality (task_render t))) w
       | _ => (tt, w)
       end.

(** The callback given to [canvas.toBlob], called with the encoder's
    result. *)
Definition toBlob_callback (r : State) (blob : option Blob) : M unit :=
  match blob with
  | Some b =>
      (match convertedUrl r with
       | Some u => URL_revokeObjectURL u
       | None => skip
       end);;
      let! newUrl := URL_createObjectURL (OBlob b) in
      setConvertedUrl (Some newUrl);;
      setConvertedBlob (Some b)
  | None => skip
  end.

(** The encoder finishes task [i]: [None] for a null result, [Some n]
    for a blob of [n] bytes. *)
Definition toBlob_done (i : nat) (result : option N) : M unit :=
  λ w, match tasks w !! i with
       | Some ({| task_stage := Encoding mime q |} as t) =>
           (set_stage i t Finished;;
            toBlob_callback (task_render t)
              (option_map (λ n, {| blob_size := n; blob_type := mime;
                                   blob_quality := q;
                                   blob_source := task_input t |}) result)) w
       | _ => (tt, w)
       end.

Definition autoConvert (r : State) (f : File) : M unit :=
  let ext := JS.split "/" (file_type f) !! 1%nat in
  (if bool_decide (ext = Some "jpeg") || bool_decide (ext = Some "jpg")
   then setFormat png
   else setFormat jpeg);;
  convertOnly r f.

Definition handleNewFile (r : State) (f : File) : M unit :=
  let! url := URL_createObjectURL (OFile f) in
  setFile (Some f);;
  setOriginalUrl (Some url);;
  autoConvert r f.

Definition handleFormatChange (r : State) (value : Format) : M unit :=
  setFormat value;;
  match file r with
  | Some f => convertOnly r f
  | None => skip
  end.

Definition handleQualityChange (r : State) (newQuality : float) : M unit :=
  setQuality newQuality;;
  match file r with
  | Some f => convertOnly r f
  | None => skip
  end.

(** Clipboard items: declared type and what [getAsFile] returns. *)
Record ClipItem := { item_type : string; item_file : option File }.

Fixpoint handlePaste (r : State) (items : list ClipItem) : M unit :=
  match items with
  | [] => skip
  | item :: rest =>
      (if JS.startsWith "image/" (item_type item)
       then match item_file item with
            | Some pastedFile => handleNewFile r pastedFile
            | None => skip
            end
       else skip);;
      handlePaste r rest
  end.

Definition handleReset : M unit :=
  setFile None;;
  setOriginalUrl None;;
  setConvertedUrl None;;
  setConvertedBlob None;;
  setZoomLevel (λ _, 1%float).

Definition handleDownload (r : State) : M unit :=
  match convertedBlob r with
  | None => skip
  | Some b =>
      let! href := URL_createObjectURL (OBlob b) in
      link_click ("converted." ++ format_name (format r)) href
  end.

Definition zoomIn : M unit := setZoomLevel (λ z, JS.Math_min (z + 0.1)%float 3%float).
Definition zoomOut : M unit := setZoomLevel (λ z, JS.Math_max (z - 0.1)%float 0.5%float).
Definition zoomFit : M unit := setZoomLevel (λ _, 1%float).

(** [onDrop] of the drop zone. *)
Definition onDrop (r : State) (acceptedFiles : list File) : M unit :=
  match acceptedFiles with
  | f :: _ => handleNewFile r f
  | [] => skip
  end.

(** [formatFileSize]; sizes are byte counts, and dividing a byte count
    by a power of two is exact in binary64. *)
Definition formatFileSize (size : N) : string :=
  if (size <? 1024)%N then JS.Number_toString size ++ " B"
  else if (size <? 1024 * 1024)%N
       then JS.Number_toFixed1 (inject_Z (Z.of_N size) / 1024)%Q ++ " KB"
       else JS.Number_toFixed1 (inject_Z (Z.of_N size) / (1024 * 1024))%Q ++ " MB".

Definition toUpperCase (f : Format) : string :=
  match f with jpeg => "JPEG" | png => "PNG" | webp => "WEBP" | avif => "AVIF" end.

(** The info label of the converted pane: the selected format in upper
    case and the size of the converted blob. *)
Definition convertedInfo (r : State) : string * string :=
  (toUpperCase (format r),
   match convertedBlob r with
   | Some b => formatFileSize (blob_size b)
   | None => "0B"
   end).

(** ** Events *)

(** What can happen to a mounted component: user gestures, and the
    platform completing a load or an encode. *)
Inductive Event :=
  | Drop (acceptedFiles : list File)
  | Paste (items : list ClipItem)
  | FormatChange (value : Format)
  | QualityChange (newQuality : float)
  | Reset
  | Download
  | ZoomIn
  | ZoomOut
  | ZoomFit
  | ImgLoad (i : nat) (ctx : bool)
  | BlobDone (i : nat) (result : option N).

(** The drop zone is rendered while [originalUrl] is null, the
    comparison view with its controls otherwise. *)
Definition view_mounted (w : World) : bool :=
  match originalUrl (st w) with Some _ => true | None => false end.

(** One event.  Gestures reach the handlers of the current render; the
    paste listener is registered once, by the effect of the first render
    (its dependency [moveSlider] never changes), so it runs the first
    render's [handlePaste]. *)
Definition step (w : World) (e : Event) : World :=
  match e with
  | Drop fs => if view_mounted w then w else exec (onDrop (st w) fs) w
  | Paste items => exec (handlePaste initial_state items) w
  | FormatChange v =>
      if view_mounted w then exec (handleFormatChange (st w) v) w else w
  | QualityChange q =>
      if view_mounted w then exec (handleQualityChange (st w) q) w else w
  | Reset => if view_mounted w then exec handleReset w else w
  | Download => if view_mounted w then exec (handleDownload (st w)) w else w
  | ZoomIn => if view_mounted w then exec zoomIn w else w
  | ZoomOut => if view_mounted w then exec zoomOut w else w
  | ZoomFit => if view_mounted w then exec zoomFit w else w
  | ImgLoad i ctx => exec (img_onload i ctx) w
  | BlobDone i result => exec (toBlob_done i result) w
  end.

Definition run (w : World) (es : list Event) : World := foldl step w es.

(** ** The comparison slider *)

Module Slider.

(** The two fields of [getBoundingClientRect()] that are read. *)
Record Rect := { left : float; width : float }.

(** [clip-path: inset(top right% bottom left)], by the numbers put in. *)
Record Inset := {
  inset_top : float; inset_right : float; inset_bottom : float; inset_left : float
}.

(** What the slider code reads and writes through its refs; a ref is
    [None] while its element is not mounted. *)
Record Dom := {
  containerRef : option Rect;
  clipRef : option Inset;          (* [style.clipPath] of the clip layer *)
  dividerRef : option float;       (* [style.left] of the divider, in percent *)
  isDragging : bool;
  listening : bool                 (* mousemove and touchmove listeners attached *)
}.

Definition moveSlider (clientX : float) (d : Dom) : Dom :=
  match containerRef d, clipRef d, dividerRef d with
  | Some rect, Some _, Some _ =>
      let pos := ((clientX - left rect) / width rect * 100)%float in
      let pos := JS.Math_min (JS.Math_max pos 0) 100 in
      {| containerRef := containerRef d;
         clipRef := Some {| inset_top := 0; inset_right := (100 - pos)%float;
                            inset_bottom := 0; inset_left := 0 |};
         dividerRef := Some pos;
         isDragging := isDragging d; listening := listening d |}
  | _, _, _ => d
  end.

(** [startDrag]; [on_handle] tells whether the handle is mounted and
    contains the event's target. *)
Definition startDrag (on_handle : bool) (d : Dom) : Dom :=
  if on_handle
  then {| containerRef := containerRef d; clipRef := clipRef d;
          dividerRef := dividerRef d; isDragging := true; listening := true |}
  else d.

Definition stopDrag (d : Dom) : Dom :=
  if isDragging d
  then {| containerRef := containerRef d; clipRef := clipRef d;
          dividerRef := dividerRef d; isDragging := false; listening := false |}
  else d.

(** A mousemove or touchmove on the window: [onMouseMove] and
    [onTouchMove] are called only while attached. *)
Definition pointer_move (clientX : float) (d : Dom) : Dom :=
  if listening d then moveSlider clientX d else d.

End Slider.

(** ** The specification's properties, in its own words *)

Module Spec.

(** [inferDefaultFormat]: "jpeg" or its alias "jpg" gives PNG, every
    other subtype gives JPEG. *)
Definition inferDefaultFormat (sourceMimeSubtype : string) : Format :=
  if bool_decide (sourceMimeSubtype = "jpeg" ∨ sourceMimeSubtype = "jpg")
  then png else jpeg.

(** A locator is live while the URL store still resolves it. *)
Definition live (w : World) (u : Url) : Prop := is_Some (urls w !! u).

(** Live locators of converted images and of source images. *)
Definition converted_locator (w : World) (u : Url) : Prop :=
  ∃ b, urls w !! u = Some (OBlob b).
Definition original_locator (w : World) (u : Url) : Prop :=
  ∃ f, urls w !! u = Some (OFile f).

Definition at_most_one (P : Url → Prop) : Prop := ∀ u1 u2, P u1 → P u2 → u1 = u2.

(** Reset "releases both locators": neither the original nor the
    converted locator of the state reset was applied to is live
    afterwards. *)
Definition reset_releases (w : World) : Prop :=
  ∀ u, originalUrl (st w) = Some u ∨ convertedUrl (st w) = Some u →
       ¬ live (step w Reset) u.

(** The converted blob on display was encoded at the format and
    quality the controls show. *)
Definition reflects_parameters (s : State) : Prop :=
  ∃ b, convertedBlob s = Some b
       ∧ blob_type b = "image/" ++ format_name (format s)
       ∧ blob_quality b = quality s.

(** An encode that yields no data, a zero-byte output included, leaves
    the converted state as it was. *)
Definition empty_result_keeps_converted (w : World) (i : nat) : Prop :=
  ∀ result, result = None ∨ result = Some 0%N →
            st (step w (BlobDone i result)) = st w.

(** [clamp(x, lo, hi)] on binary64 numbers: [lo] for an [x] at or
    below [lo], [hi] for an [x] at or above [hi], [x] itself otherwise. *)
Definition clamp (x lo hi : float) : float :=
  if (x <=? lo)%float then lo else if (hi <=? x)%float then hi else x.



(** The smaller and the larger of two binary64 numbers that are not
    NaN, by comparison. *)
Definition min (x y : float) : float := if (x <? y)%float then x else y.
Definition max (x y : float) : float := if (x <? y)%float then y else x.

(** [t / 10] is [x] rounded to one decimal: no other number of tenths
    is closer to [x]. *)
Definition rounded_to_one_decimal (t : Z) (x : Q) : Prop :=
  ∀ t' : Z, (Qabs (inject_Z t / 10 - x) <= Qabs (inject_Z t' / 10 - x))%Q.

(** The digit a character stands for. *)
Definition digit (c : ascii) : option N :=
  let k := N_of_ascii c in
  if (48 <=? k)%N && (k <=? 57)%N then Some (k - 48)%N else None.

(** The number a string of decimal digits stands for, read from the
    left; [acc] is the number read so far. *)
Fixpoint read_digits (acc : N) (s : string) : option N :=
  match s with
  | EmptyString => Some acc
  | String c s' =>
      match digit c with
      | Some d => read_digits (10 * acc + d) s'
      | None => None
      end
  end.

(** [s] is the decimal numeral of [n]: at least one digit, no zero in
    front of another digit, and the digits stand for [n]. *)
Definition numeral (s : string) (n : N) : Prop :=
  s ≠ "" ∧ (∀ s', s = String "0" s' → s' = "") ∧ read_digits 0 s = Some n.

(** [s] shows [t] tenths with one decimal: the numeral of the whole
    part, a point, and the numeral of the tenths left over. *)
Definition one_decimal (s : string) (t : Z) : Prop :=
  ∃ whole tenth, s = whole ++ "." ++ tenth
                 ∧ numeral whole (Z.to_N (t / 10))
                 ∧ numeral tenth (Z.to_N (t mod 10)).

End Spec.

(** No conversion is waiting for its load or its encoder. *)
Definition in_flight (t : Task) : bool :=
  match task_stage t with Finished => false | _ => true end.

Definition quiescent (w : World) : bool := forallb (λ t, negb (in_flight t)) (tasks w).

(** ** What every session maintains *)

(** The converted locator a render knows was handed out for a blob: it
    is an old locator, and not one of a source file. *)
Definition knows_a_blob_locator (w : World) (r : State) : Prop :=
  ∀ u, convertedUrl r = Some u → u < next_url w ∧ ∀ f, urls w !! u ≠ Some (OFile f).

Record sound (w : World) : Prop := {
  (* the converted locator on display designates the converted blob *)
  sound_rendered : ∀ u, convertedUrl (st w) = Some u →
                        ∃ b, urls w !! u = Some (OBlob b) ∧ convertedBlob (st w) = Some b;
  (* the original locator on display designates the source file *)
  sound_original : ∀ u, originalUrl (st w) = Some u →
                        ∃ f, urls w !! u = Some (OFile f) ∧ file (st w) = Some f;
  (* locators are handed out in increasing order *)
  sound_fresh : ∀ u, is_Some (urls w !! u) → u < next_url w;
  (* what the renders of the conversions issued so far know *)
  sound_known : ∀ i t, tasks w !! i = Some t → knows_a_blob_locator w (task_render t)
}.

(** ** Sessions whose conversions do not overlap *)

(** A gesture that issues a conversion is sequential when no earlier
    conversion is still in flight.  Reset, download and paste are not
    part of such a session. *)
Definition sequential_event (w : World) (e : Event) : bool :=
  match e with
  | Drop _ | FormatChange _ | QualityChange _ => quiescent w
  | Paste _ | Reset | Download => false
  | ZoomIn | ZoomOut | ZoomFit | ImgLoad _ _ | BlobDone _ _ => true
  end.

Fixpoint sequential (w : World) (es : list Event) : bool :=
  match es with
  | [] => true
  | e :: es => sequential_event w e && sequential (step w e) es
  end.

(** What such a session maintains on top of [sound]. *)
Record hygienic (w : World) : Prop := {
  (* every live locator of a converted image is the one on display *)
  hyg_converted : ∀ u b, urls w !! u = Some (OBlob b) → convertedUrl (st w) = Some u;
  (* no locator was revoked twice, and a revoked locator is not live *)
  hyg_revoked_once : NoDup (revoked w);
  hyg_revoked : ∀ u, u ∈ revoked w → urls w !! u = None ∧ u < next_url w;
  (* a conversion in flight was issued by a render showing the current
     converted locator, and it is the only one in flight *)
  hyg_known : ∀ i t, tasks w !! i = Some t → in_flight t = true →
                     convertedUrl (task_render t) = convertedUrl (st w);
  hyg_single : ∀ i j ti tj, tasks w !! i = Some ti → tasks w !! j = Some tj →
                            in_flight ti = true → in_flight tj = true → i = j
}.

(** Does the string contain the character? *)
Fixpoint contains (c : ascii) (s : string) : bool :=
  match s with
  | EmptyString => false
  | String c' s' => Ascii.eqb c' c || contains c s'
  end.

(** ** Zoom levels *)

Inductive ZoomAction := zoom_in | zoom_out | zoom_fit.

Definition zoom_handler (a : ZoomAction) : M unit :=
  match a with zoom_in => zoomIn | zoom_out => zoomOut | zoom_fit => zoomFit end.

(** A sequence of clicks on the three zoom buttons. *)
Definition zoom (w : World) (acts : list ZoomAction) : World :=
  foldl (λ w a, exec (zoom_handler a) w) w acts.

(** The level one click on a zoom button leads to from level [z]. *)
Definition zoom_after (a : ZoomAction) (z : float) : float :=
  zoomLevel (st (exec (zoom_handler a) (exec (setZoomLevel (λ _, z)) initial_world))).

Definition in_zoom_range (z : float) : bool := (0.5 <=? z)%float && (z <=? 3)%float.

Definition float_mem (x : float) (l : list float) : bool :=
  existsb (PrimFloat.Leibniz.eqb x) l.

Definition visit (x : float) (acc : list float * list float) : list float * list float :=
  if float_mem x acc.1 then acc else (x :: acc.1, x :: acc.2).

(** Worklist exploration of the levels the buttons lead to. *)
Fixpoint zoom_closure (fuel : nat) (seen frontier : list float) : list float :=
  match fuel, frontier with
  | S fuel, z :: rest =>
      let '(seen', frontier') :=
        foldr visit (seen, rest) (map (λ a, zoom_after a z) [zoom_in; zoom_out; zoom_fit]) in
      zoom_closure fuel seen' frontier'
  | _, _ => seen
  end.

(** Every binary64 value the zoom level can take, starting from 1. *)
Definition zoom_values : list float :=
  Eval vm_compute in zoom_closure 1000 [1%float] [1%float].

(** ** Binary64 numbers by their values *)

(** The rational a finite binary64 number denotes. *)
Definition float_value (x : float) : option Q :=
  match Prim2SF x with
  | S754_zero _ => Some 0%Q
  | S754_finite s m e =>
      Some ((if s then -1 else 1) * inject_Z (Z.pos m) * Qpower 2 e)%Q
  | _ => None
  end.

Module B64.






Definition is_zero (f : spec_float) : bool :=
  match f with S754_zero _ => true | _ => false end.

Definition hundred : spec_float := S754_finite false 7036874417766400 (-46).

End B64.


(** ** Sample sessions *)

Definition sample_webp : File :=
  {| file_type := "image/webp"; file_size := 5000; file_id := 1 |}.

(** A WEBP file is dropped and its first conversion is on display. *)
Definition session_loaded : World :=
  run initial_world [Drop [sample_webp]; ImgLoad 0 true; BlobDone 0 (Some 100%N)].

(** Then the quality is set to 0.9 and, before that conversion has
    loaded, the format to PNG: conversions 1 and 2 are both waiting for
    the encoder. *)
Definition session_racing : World :=
  run session_loaded
    [QualityChange 0.9%float; FormatChange png; ImgLoad 1 true; ImgLoad 2 true].

(** The format is changed once and the encoder has been called. *)
Definition session_encoding : World :=
  run session_loaded [FormatChange png; ImgLoad 1 true].

(** ** What one completed encode does to the world *)

Definition finish (t : Task) : Task :=
  {| task_render := task_render t; task_input := task_input t; task_stage := Finished |}.

(** The blob the encoder delivers to task [t] when it yields [n] bytes. *)
Definition delivered (t : Task) (n : N) : option Blob :=
  match task_stage t with
  | Encoding mime q =>
      Some {| blob_size := n; blob_type := mime; blob_quality := q;
              blob_source := task_input t |}
  | _ => None
  end.

(** The URL store after the callback of a conversion issued by render
    [r] has revoked the locator that render knew. *)
Definition revoke_known (r : State) (m : gmap Url Obj) : gmap Url Obj :=
  match convertedUrl r with Some u => delete u m | None => m end.

Definition revocation_known (r : State) (l : list Url) : list Url :=
  match convertedUrl r with Some u => u :: l | None => l end.

(** The comparison view as it is mounted: clip [inset(0 50% 0 0)],
    divider at 50%, no drag in progress. *)
Definition mounted_dom (rect : Slider.Rect) : Slider.Dom :=
  {| Slider.containerRef := Some rect;
     Slider.clipRef := Some {| Slider.inset_top := 0; Slider.inset_right := 50;
                               Slider.inset_bottom := 0; Slider.inset_left := 0 |};
     Slider.dividerRef := Some 50%float;
     Slider.isDragging := false; Slider.listening := false |}.



(** Three format changes, each made after the previous conversion was
    published. *)
Definition session_sequential : list Event :=
  [Drop [sample_webp]; ImgLoad 0 true; BlobDone 0 (Some 100%N);
   FormatChange png; ImgLoad 1 true; BlobDone 1 (Some 120%N);
   FormatChange webp; ZoomIn; ImgLoad 2 true; BlobDone 2 (Some 90%N);
   FormatChange avif; ImgLoad 3 true; BlobDone 3 None].

(** ** Labels and gestures outside the conversion pipeline *)

(** [Math.round] of a finite number, as the integer it yields: the
    nearest integer, the larger one of two equally near. *)
Definition Math_round (x : float) : option Z :=
  (λ q, Qfloor (q + (1 # 2))%Q) <$> float_value x.

(** The number in the zoom label, [Math.round(zoomLevel * 100)]. *)
Definition zoomPercent (r : State) : option Z :=
  Math_round (zoomLevel r * 100)%float.

(** The files [handlePaste] hands to [handleNewFile]: those of the
    items whose type starts with "image/" and that yield a file. *)
Definition pasted_files (items : list ClipItem) : list File :=
  omap (λ item, if JS.startsWith "image/" (item_type item)
                then item_file item else None) items.

(** The conversion [convertOnly] of render [r] issues for file [f]. *)
Definition issued (r : State) (f : File) : Task :=
  {| task_render := r; task_input := f; task_stage := Loading |}.

(** Pointer events the slider listens to: mouse-down or touch-start on
    the view ([on_handle] as for [startDrag]), mouse-move or the first
    touch of a touch-move on the window, mouse-up or touch-end on the
    window. *)
Inductive SliderEvent :=
  | PointerDown (on_handle : bool)
  | PointerMove (clientX : float)
  | PointerUp.

Definition slider_step (d : Slider.Dom) (e : SliderEvent) : Slider.Dom :=
  match e with
  | PointerDown on_handle => Slider.startDrag on_handle d
  | PointerMove clientX => Slider.pointer_move clientX d
  | PointerUp => Slider.stopDrag d
  end.

Definition slider_run (d : Slider.Dom) (es : list SliderEvent) : Slider.Dom :=
  foldl slider_step d es.

(** The divider is at [pos]% and the converted layer is clipped to its
    leftmost [pos]%. *)
Definition split_at (d : Slider.Dom) (pos : float) : Prop :=
  Slider.dividerRef d = Some pos
  ∧ Slider.clipRef d = Some {| Slider.inset_top := 0; Slider.inset_right := 100 - pos;
                               Slider.inset_bottom := 0; Slider.inset_left := 0 |}.

(** Blob [b] is what the encoder delivers to conversion [t] when it is
    called with the format and quality of the render that issued [t]. *)
Definition encoded_by (b : Blob) (t : Task) : Prop :=
  blob_source b = task_input t
  ∧ blob_type b = "image/" ++ format_name (format (task_render t))
  ∧ blob_quality b = quality (task_render t).

Record traceable (w : World) : Prop := {
  (* the encoder was called with the issuing render's parameters *)
  trace_encoding : ∀ i t mime q, tasks w !! i = Some t → task_stage t = Encoding mime q →
                     mime = "image/" ++ format_name (format (task_render t))
                     ∧ q = quality (task_render t);
  (* the blob on display was delivered to a finished conversion *)
  trace_displayed : ∀ b, convertedBlob (st w) = Some b →
                      ∃ i t, tasks w !! i = Some t ∧ task_stage t = Finished ∧ encoded_by b t
}.

(** Revoked locators are gone for good. *)
Definition revoked_dead (w : World) : Prop :=
  ∀ u, u ∈ revoked w → urls w !! u = None ∧ u < next_url w.

(** Every locator of a source file that is live in [w] is live in [w']. *)
Definition keeps_files (w w' : World) : Prop :=
  ∀ u f, urls w !! u = Some (OFile f) → urls w' !! u = Some (OFile f).

(** The tenths [toFixed(1)] prints for [n / d], in integer arithmetic. *)
Definition tenths (n d : Z) : Z := (10 * n + d / 2) / d.

(** The [download] attribute [handleDownload] of render [r] gives its
    anchor. *)
Definition download_name (r : State) : string := "converted." ++ format_name (format r).

(** [w'] has the locators of [w] untouched, perhaps with new ones, and
    no further revocation. *)
Definition extends (w w' : World) : Prop :=
  revoked w' = revoked w
  ∧ next_url w ≤ next_url w'
  ∧ ∀ u, u < next_url w → urls w' !! u = urls w !! u.

(** No event of [es] is the encoder's callback. *)
Definition no_completion (es : list Event) : Prop :=
  ∀ i result, BlobDone i result ∉ es.

(** The number the zoom label shows at level [z]. *)
Definition label_at (z : float) : option Z := Math_round (z * 100)%float.

(** At level [z] the label shows a multiple of ten between 50 and 300,
    and one click on zoom-in or zoom-out moves it by ten, up to 300 and
    down to 50. *)
Definition label_steps_by_ten (z : float) : bool :=
  match label_at z with
  | Some p =>
      (50 <=? p)%Z && (p <=? 300)%Z && (p mod 10 =? 0)%Z
      && bool_decide (label_at (zoom_after zoom_in z) = Some (Z.min (p + 10) 300))
      && bool_decide (label_at (zoom_after zoom_out z) = Some (Z.max (p - 10) 50))
  | None => false
  end.

(** * Proofs *)

(** ** Default target format (C5) *)

Lemma split_without_separator sep s :
  contains sep s = false → JS.split sep s = [s].
Proof.
  induction s as [|c s IH]; simpl; [done|].
  intros [Hc Hs]%orb_false_iff. rewrite Hc, (IH Hs). done.
Qed.

Lemma split_at_first_separator sep a b :
  contains sep a = false →
  JS.split sep (a ++ String sep b) = a :: JS.split sep b.
Proof.
  induction a as [|c a IH]; simpl.
  - intros _. by rewrite Ascii.eqb_refl.
  - intros [Hc Ha]%orb_false_iff. rewrite Hc, (IH Ha). done.
Qed.

Lemma mime_subtype major sub :
  contains "/" major = false → contains "/" sub = false →
  JS.split "/" (major ++ "/" ++ sub) !! 1%nat = Some sub.
Proof.
  intros Hm Hs. change ("/" ++ sub) with (String "/" sub).
  rewrite (split_at_first_separator _ _ _ Hm), (split_without_separator _ _ Hs). done.
Qed.

Lemma autoConvert_format r f w :
  format (st (exec (autoConvert r f) w)) =
  if bool_decide (JS.split "/" (file_type f) !! 1%nat = Some "jpeg")
     || bool_decide (JS.split "/" (file_type f) !! 1%nat = Some "jpg")
  then png else jpeg.
Proof. unfold autoConvert. by destruct (_ || _). Qed.

(** C5: ingesting a file whose declared type is [major/sub] sets the
    target format to PNG when [sub] is "jpeg" or "jpg" and to JPEG for
    every other subtype, whichever render's handler ingests it (drop or
    paste). *)
Theorem default_format_by_subtype (r : State) (f : File) (w : World) (major sub : string) :
  file_type f = major ++ "/" ++ sub →
  contains "/" major = false → contains "/" sub = false →
  format (st (exec (handleNewFile r f) w)) = Spec.inferDefaultFormat sub.
Proof.
  intros Hty Hm Hs.
  unfold handleNewFile, exec, bind, URL_createObjectURL, setFile, setOriginalUrl, modify_state.
  cbn [fst snd].
  pose proof (autoConvert_format r f) as Hfmt. unfold exec in Hfmt. rewrite Hfmt.
  rewrite Hty, (mime_subtype _ _ Hm Hs). unfold Spec.inferDefaultFormat.
  destruct (decide (sub = "jpeg")) as [->|Hjpeg]; [done|].
  destruct (decide (sub = "jpg")) as [->|Hjpg]; [done|].
  rewrite !bool_decide_eq_false_2; [done|intuition congruence..].
Qed.

Lemma default_format_by_subtype_witness :
  format (st (exec (handleNewFile initial_state
                      {| file_type := "image/jpg"; file_size := 10; file_id := 0 |})
                   initial_world)) = png.
Proof.
  exact (default_format_by_subtype initial_state
           {| file_type := "image/jpg"; file_size := 10; file_id := 0 |}
           initial_world "image" "jpg" eq_refl eq_refl eq_refl).
Defined.

(** ** Download without a converted blob (C10) *)

(** C10: when no converted blob exists, the download handler returns
    at once: the world (state, URL store, revocation log, tasks and the
    log of triggered downloads) is exactly what it was, both for the
    handler itself and for the [Download] event that reaches it. *)
Theorem download_without_blob_is_noop (w : World) :
  convertedBlob (st w) = None →
  handleDownload (st w) w = (tt, w) ∧ step w Download = w.
Proof.
  intros Hb. assert (handleDownload (st w) w = (tt, w)) as H.
  { unfold handleDownload. by rewrite Hb. }
  split; [done|]. simpl. unfold exec. rewrite H. by destruct (view_mounted w).
Qed.

Lemma download_without_blob_is_noop_witness :
  handleDownload (st initial_world) initial_world = (tt, initial_world)
  ∧ step initial_world Download = initial_world.
Proof. exact (download_without_blob_is_noop initial_world eq_refl). Defined.

(** ** Zoom bounds (C8) *)

Lemma float_mem_In x l : float_mem x l = true → In x l.
Proof.
  unfold float_mem. rewrite existsb_exists. intros (y & Hy & Heq).
  apply FloatAxioms.Leibniz.eqb_spec in Heq. by subst.
Qed.

Lemma zoom_handler_level a w :
  zoomLevel (st (exec (zoom_handler a) w)) = zoom_after a (zoomLevel (st w)).
Proof. by destruct a. Qed.

Lemma zoom_values_closed a z : In z zoom_values → In (zoom_after a z) zoom_values.
Proof.
  assert (forallb (λ z, forallb (λ a, float_mem (zoom_after a z) zoom_values)
                          [zoom_in; zoom_out; zoom_fit]) zoom_values = true) as Hall
    by (vm_compute; reflexivity).
  intros Hz. rewrite forallb_forall in Hall. specialize (Hall z Hz).
  rewrite forallb_forall in Hall. apply float_mem_In, Hall.
  destruct a; simpl; auto.
Qed.

Lemma zoom_values_in_range z : In z zoom_values → in_zoom_range z = true.
Proof.
  assert (forallb in_zoom_range zoom_values = true) as Hall by (vm_compute; reflexivity).
  rewrite forallb_forall in Hall. apply Hall.
Qed.

Lemma zoom_values_default : In 1%float zoom_values.
Proof. apply float_mem_In. vm_compute. reflexivity. Qed.

Lemma zoom_reaches_values acts w :
  In (zoomLevel (st w)) zoom_values → In (zoomLevel (st (zoom w acts))) zoom_values.
Proof.
  revert w. induction acts as [|a acts IH]; intros w Hw; [done|].
  simpl. apply IH. rewrite zoom_handler_level. by apply zoom_values_closed.
Qed.

Lemma zoom_values_step z :
  In z zoom_values →
  zoom_after zoom_in z = Spec.min (z + 0.1)%float 3%float
  ∧ zoom_after zoom_out z = Spec.max (z - 0.1)%float 0.5%float.
Proof.
  assert (forallb (λ z, PrimFloat.Leibniz.eqb (zoom_after zoom_in z)
                          (Spec.min (z + 0.1)%float 3%float)
                        && PrimFloat.Leibniz.eqb (zoom_after zoom_out z)
                             (Spec.max (z - 0.1)%float 0.5%float))
            zoom_values = true) as Hall by (vm_compute; reflexivity).
  intros Hz. rewrite forallb_forall in Hall. specialize (Hall z Hz).
  apply andb_true_iff in Hall as [Hin Hout].
  by apply FloatAxioms.Leibniz.eqb_spec in Hin, Hout.
Qed.

(** C8: starting from a zoom level of 1, any sequence of zoomIn,
    zoomOut and zoomFit leaves the level [z] within [0.5, 3]; from there
    one zoomIn sets it to the smaller of [z + 0.1] and 3, one zoomOut to
    the larger of [z - 0.1] and 0.5, and one zoomFit to exactly 1, all in
    binary64 arithmetic. *)
Theorem zoom_stays_in_range (w : World) (acts : list ZoomAction) :
  zoomLevel (st w) = 1%float →
  let w' := zoom w acts in
  let z := zoomLevel (st w') in
  ((0.5 <=? z)%float = true ∧ (z <=? 3)%float = true)
  ∧ zoomLevel (st (exec zoomIn w')) = Spec.min (z + 0.1)%float 3%float
  ∧ zoomLevel (st (exec zoomOut w')) = Spec.max (z - 0.1)%float 0.5%float
  ∧ zoomLevel (st (exec zoomFit w')) = 1%float.
Proof.
  intros Hw. cbv zeta.
  assert (In (zoomLevel (st (zoom w acts))) zoom_values) as Hz.
  { apply zoom_reaches_values. rewrite Hw. apply zoom_values_default. }
  destruct (zoom_values_step _ Hz) as [Hin Hout].
  split; [|split; [|split]].
  - by apply andb_true_iff, zoom_values_in_range.
  - by rewrite (zoom_handler_level zoom_in).
  - by rewrite (zoom_handler_level zoom_out).
  - done.
Qed.

Lemma zoom_stays_in_range_witness :
  let w' := zoom initial_world [zoom_in; zoom_in] in
  zoomLevel (st w') = 1.2000000000000002%float
  ∧ ((0.5 <=? 1.2000000000000002)%float = true ∧ (1.2000000000000002 <=? 3)%float = true)
  ∧ zoomLevel (st (exec zoomIn w')) = 1.3000000000000003%float
  ∧ zoomLevel (st (exec zoomOut w')) = 1.1%float
  ∧ zoomLevel (st (exec zoomFit w')) = 1%float.
Proof.
  split; [reflexivity|].
  exact (zoom_stays_in_range initial_world [zoom_in; zoom_in] eq_refl).
Defined.

(** ** Encoder without a result (C4) *)

Lemma toBlob_callback_null r w : toBlob_callback r None w = (tt, w).
Proof. done. Qed.

(** C4, amended: when the encoder delivers no blob (null), the
    callback returns normally and changes nothing: the converted blob,
    its locator, the URL store, the revocation log and the info label
    are what they were.  (A blob that is not null is published whatever
    its size.) *)
Theorem null_result_keeps_converted (w : World) (i : nat) :
  let w' := step w (BlobDone i None) in
  st w' = st w ∧ urls w' = urls w ∧ next_url w' = next_url w
  ∧ revoked w' = revoked w ∧ downloads w' = downloads w
  ∧ convertedInfo (st w') = convertedInfo (st w).
Proof.
  simpl. unfold exec, toBlob_done.
  destruct (tasks w !! i) as [[r f [| |]]|]; done.
Qed.

(** C4 as stated fails: a zero-byte blob is a blob, and the callback
    publishes it over the conversion on display. *)
Lemma zero_byte_result_overwrites :
  ¬ Spec.empty_result_keeps_converted session_encoding 1.
Proof.
  intros H. specialize (H (Some 0%N) (or_intror eq_refl)).
  apply (f_equal (λ s, blob_size <$> convertedBlob s)) in H.
  vm_compute in H. discriminate H.
Qed.

(** ** Reset (C6) *)

(** C6, amended: reset, applied in any state, clears the source image
    and its locator reference, clears the converted blob and its locator
    reference, and sets the zoom level to exactly 1; format and quality
    stay.  It does not release the original locator: what that locator
    designated in the URL store, it still designates. *)
Theorem reset_clears_state (w : World) :
  let w' := exec handleReset w in
  file (st w') = None ∧ originalUrl (st w') = None
  ∧ convertedUrl (st w') = None ∧ convertedBlob (st w') = None
  ∧ zoomLevel (st w') = 1%float
  ∧ format (st w') = format (st w) ∧ quality (st w') = quality (st w)
  ∧ (∀ u, originalUrl (st w) = Some u → urls w' !! u = urls w !! u).
Proof. repeat split; done. Qed.

(** C6 as stated fails: after a reset both locators of the session are
    still live. *)
Lemma reset_releases_nothing :
  ¬ Spec.reset_releases session_loaded
  ∧ originalUrl (st session_loaded) = Some 0%nat
  ∧ convertedUrl (st session_loaded) = Some 2%nat
  ∧ Spec.live (step session_loaded Reset) 0%nat
  ∧ Spec.live (step session_loaded Reset) 2%nat
  ∧ revoked (step session_loaded Reset) = [].
Proof.
  assert (Spec.live (step session_loaded Reset) 0%nat) as H0 by (vm_compute; eauto).
  assert (Spec.live (step session_loaded Reset) 2%nat) as H2 by (vm_compute; eauto).
  repeat split; try done.
  intros H. by apply (H 0%nat); [left|].
Qed.

(** ** Parameters a conversion encodes at (C2) *)

Lemma img_onload_last_task w tl t :
  tasks w = (tl ++ [t])%list → task_stage t = Loading →
  task_stage <$> tasks (exec (img_onload (length tl) true) w) !! length tl
  = Some (Encoding ("image/" ++ format_name (format (task_render t)))
                   (quality (task_render t))).
Proof.
  intros Htasks Hst. unfold exec, img_onload.
  assert (tasks w !! length tl = Some t) as Hi
    by (by rewrite Htasks, lookup_app_r, Nat.sub_diag).
  rewrite Hi. destruct t as [r f stage]. simpl in Hst. subst stage. cbn.
  rewrite list_lookup_insert_eq; [done|]. rewrite Htasks, length_app. simpl. lia.
Qed.

(** C2, what the code does: with a source image loaded, a format
    change (and likewise a quality change) writes the new value to the
    state and issues a conversion at once, but that conversion belongs to
    the render in which the control was operated: when its image has
    loaded, the encoder is called with the format and quality of that
    render, the values from before the change. *)
Theorem change_encodes_at_previous_parameters (w : World) (f : File) :
  file (st w) = Some f →
  let i := length (tasks w) in
  let previous := Encoding ("image/" ++ format_name (format (st w))) (quality (st w)) in
  (∀ value,
     let w1 := exec (handleFormatChange (st w) value) w in
     format (st w1) = value
     ∧ task_stage <$> tasks w1 !! i = Some Loading
     ∧ task_stage <$> tasks (exec (img_onload i true) w1) !! i = Some previous)
  ∧ (∀ newQuality,
     let w1 := exec (handleQualityChange (st w) newQuality) w in
     quality (st w1) = newQuality
     ∧ task_stage <$> tasks w1 !! i = Some Loading
     ∧ task_stage <$> tasks (exec (img_onload i true) w1) !! i = Some previous).
Proof.
  intros Hf. split; intros v.
  - unfold handleFormatChange. rewrite Hf. repeat split.
    + unfold exec, bind; cbn. by rewrite lookup_app_r, Nat.sub_diag.
    + by apply (img_onload_last_task _ (tasks w)
                  {| task_render := st w; task_input := f; task_stage := Loading |}).
  - unfold handleQualityChange. rewrite Hf. repeat split.
    + unfold exec, bind; cbn. by rewrite lookup_app_r, Nat.sub_diag.
    + by apply (img_onload_last_task _ (tasks w)
                  {| task_render := st w; task_input := f; task_stage := Loading |}).
Qed.

Lemma change_encodes_at_previous_parameters_witness :
  let w1 := exec (handleFormatChange (st session_loaded) png) session_loaded in
  format (st w1) = png
  ∧ task_stage <$> tasks w1 !! 1%nat = Some Loading
  ∧ task_stage <$> tasks (exec (img_onload 1 true) w1) !! 1%nat
    = Some (Encoding "image/jpeg" 0.8%float).
Proof.
  exact (proj1 (change_encodes_at_previous_parameters session_loaded sample_webp eq_refl) png).
Defined.

(** ** Completion order of overlapping conversions (C1) *)

Lemma toBlob_done_publishes w i t n b :
  tasks w !! i = Some t → delivered t n = Some b →
  exec (toBlob_done i (Some n)) w =
  {| st := {| file := file (st w); format := format (st w); quality := quality (st w);
              convertedUrl := Some (next_url w); convertedBlob := Some b;
              originalUrl := originalUrl (st w); zoomLevel := zoomLevel (st w) |};
     urls := <[next_url w := OBlob b]> (revoke_known (task_render t) (urls w));
     next_url := S (next_url w);
     revoked := revocation_known (task_render t) (revoked w);
     tasks := <[i := finish t]> (tasks w);
     downloads := downloads w |}.
Proof.
  intros Hi Hb. unfold exec, toBlob_done. rewrite Hi.
  destruct t as [r f [|m q|]]; try discriminate Hb.
  unfold delivered in Hb. simpl in Hb. injection Hb as <-.
  unfold revoke_known, revocation_known, toBlob_callback, bind. simpl.
  by destruct (convertedUrl r).
Qed.

Lemma toBlob_done_null w i t :
  tasks w !! i = Some t → in_flight t = true → task_stage t ≠ Loading →
  exec (toBlob_done i None) w =
  {| st := st w; urls := urls w; next_url := next_url w; revoked := revoked w;
     tasks := <[i := finish t]> (tasks w); downloads := downloads w |}.
Proof.
  intros Hi Hfl Hst. unfold exec, toBlob_done. rewrite Hi.
  by destruct t as [r f [|m q|]].
Qed.

(** C1, amended: when two conversions are waiting for the encoder and
    both deliver a blob, the converted blob on display afterwards, the
    locator it is rendered from and the size in the info label are those
    of the conversion that completed last, in whichever order the two were
    requested (last-completed-wins); the format in the info label is the
    selected format, which completions do not change. *)
Theorem last_completed_conversion_wins
    (w : World) (i j : nat) (ti tj : Task) (ni nj : N) (bi bj : Blob) :
  i ≠ j →
  tasks w !! i = Some ti → delivered ti ni = Some bi →
  tasks w !! j = Some tj → delivered tj nj = Some bj →
  let w' := run w [BlobDone i (Some ni); BlobDone j (Some nj)] in
  convertedBlob (st w') = Some bj
  ∧ (∃ u, convertedUrl (st w') = Some u ∧ urls w' !! u = Some (OBlob bj))
  ∧ convertedInfo (st w') = (toUpperCase (format (st w)), formatFileSize (blob_size bj))
  ∧ blob_size bj = nj.
Proof.
  intros Hij Hi Hbi Hj Hbj. simpl.
  rewrite (toBlob_done_publishes w i ti ni bi Hi Hbi).
  erewrite (toBlob_done_publishes _ j tj nj bj); [|by cbn; rewrite list_lookup_insert_ne|done].
  cbn. repeat split; try done.
  - eexists. split; [done|]. by rewrite lookup_insert_eq.
  - unfold delivered in Hbj. destruct (task_stage tj); try discriminate Hbj.
    by injection Hbj as <-.
Qed.

Lemma last_completed_conversion_wins_witness :
  let w' := run session_racing [BlobDone 2 (Some 300%N); BlobDone 1 (Some 200%N)] in
  let b := {| blob_size := 200; blob_type := "image/jpeg"; blob_quality := 0.8%float;
              blob_source := sample_webp |} in
  convertedBlob (st w') = Some b
  ∧ (∃ u, convertedUrl (st w') = Some u ∧ urls w' !! u = Some (OBlob b))
  ∧ convertedInfo (st w') = ("PNG", formatFileSize 200)
  ∧ blob_size b = 200%N.
Proof.
  apply (last_completed_conversion_wins session_racing 2 1
           {| task_render := st (run session_loaded [QualityChange 0.9%float]);
              task_input := sample_webp;
              task_stage := Encoding "image/jpeg" 0.9%float |}
           {| task_render := st session_loaded;
              task_input := sample_webp;
              task_stage := Encoding "image/jpeg" 0.8%float |}
           300 200
           {| blob_size := 300; blob_type := "image/jpeg"; blob_quality := 0.9%float;
              blob_source := sample_webp |});
    [lia | vm_compute; reflexivity ..].
Defined.

(** C1 as stated fails.  The quality is set to 0.9 and then the format
    to PNG, so the last request is for (png, 0.9), which is what the
    controls show; whichever of the two conversions completes last, the
    blob on display was not encoded at those parameters. *)
Lemma last_requested_does_not_win :
  format (st session_racing) = png
  ∧ quality (st session_racing) = 0.9%float
  ∧ ¬ Spec.reflects_parameters
        (st (run session_racing [BlobDone 2 (Some 300%N); BlobDone 1 (Some 200%N)]))
  ∧ ¬ Spec.reflects_parameters
        (st (run session_racing [BlobDone 1 (Some 200%N); BlobDone 2 (Some 300%N)])).
Proof.
  repeat split; try (vm_compute; reflexivity).
  - intros (b & Hb & Hty & _). vm_compute in Hb. injection Hb as <-.
    vm_compute in Hty. discriminate Hty.
  - intros (b & Hb & Hty & _). vm_compute in Hb. injection Hb as <-.
    vm_compute in Hty. discriminate Hty.
Qed.

(** ** Split position of the comparison slider (C7) *)

(** *** Rounding in binary64 *)

(** Primitive floats are specified by [SpecFloat]: [Prim2SF] gives the
    sign, mantissa and exponent of a number, and every operation is the
    IEEE operation on those ([sub_spec], [div_spec], [mul_spec] and the
    comparisons).  What the split position needs of rounding to nearest
    is proved from that specification: a result keeps the sign of the
    exact value, and it is not below a number of the format that the
    exact value is not below.  Magnitudes [m * 2 ^ e] are compared as
    integers, as multiples of a power of two [2 ^ b] below every
    exponent that occurs. *)

Section binary64.

Local Open Scope Z_scope.



























Lemma SFcompare_finite_refl (s : bool) (m : positive) (e : Z) :
  SFcompare (S754_finite s m e) (S754_finite s m e) = Some Eq.
Proof.
  cbn [SFcompare]. rewrite Z.compare_refl.
  change (Pos.compare_cont Eq m m) with (m ?= m)%positive. rewrite Pos.compare_refl.
  by destruct s.
Qed.

Lemma SFcompare_positive_antisym (m1 m2 : positive) (e1 e2 : Z) :
  SFcompare (S754_finite false m2 e2) (S754_finite false m1 e1)
  = option_map CompOpp (SFcompare (S754_finite false m1 e1) (S754_finite false m2 e2)).
Proof.
  cbn [SFcompare option_map]. f_equal. rewrite (Z.compare_antisym e1 e2).
  change (Pos.compare_cont Eq m2 m1) with (m2 ?= m1)%positive.
  change (Pos.compare_cont Eq m1 m2) with (m1 ?= m2)%positive.
  rewrite (Pos.compare_antisym m1 m2).
  by destruct (e1 ?= e2), (m1 ?= m2)%positive.
Qed.

Lemma of_Prim2SF (x : float) (f : spec_float) : Prim2SF x = f → x = SF2Prim f.
Proof. intros <-. by rewrite SF2Prim_Prim2SF. Qed.

(** The comparisons of a finite non-zero number. *)
Lemma float_finite_tests (x : float) (s : bool) (m : positive) (e : Z) :
  Prim2SF x = S754_finite s m e →
  is_nan x = false ∧ get_sign x = s
  ∧ (x <? 0)%float = s ∧ (0 <? x)%float = negb s ∧ (x <=? 0)%float = s.
Proof.
  intros E.
  assert (SFcompare (S754_finite s m e) (S754_zero false) = Some (if s then Lt else Gt)) as Hc
    by done.
  assert (PrimFloat.is_zero x = false) as Hz.
  { unfold PrimFloat.is_zero. rewrite FloatAxioms.eqb_spec, E.
    change (Prim2SF PrimFloat.zero) with (S754_zero false).
    unfold SFeqb. rewrite Hc. by destruct s. }
  unfold is_nan, get_sign. rewrite Hz.
  rewrite FloatAxioms.eqb_spec, !FloatAxioms.ltb_spec, FloatAxioms.leb_spec, E.
  change (Prim2SF PrimFloat.zero) with (S754_zero false).
  change (Prim2SF 0) with (S754_zero false).
  unfold SFeqb, SFltb, SFleb. rewrite SFcompare_finite_refl, Hc. cbn [SFcompare].
  by destruct s.
Qed.

(** [Math.min(Math.max(x, 0), 100)] is [clamp(x, 0, 100)], for every
    binary64 number [x]. *)
Lemma clamp_as_min_max (x : float) :
  JS.Math_min (JS.Math_max x 0) 100 = Spec.clamp x 0 100.
Proof.
  destruct (Prim2SF x) as [s|s| |s m e] eqn:E.
  - apply of_Prim2SF in E as ->. by destruct s.
  - apply of_Prim2SF in E as ->. by destruct s.
  - apply of_Prim2SF in E as ->. done.
  - destruct (float_finite_tests x s m e E) as (Hnan & Hsign & Hlt & Hgt & Hle).
    unfold JS.Math_max, Spec.clamp. rewrite Hnan, Hlt, Hgt, Hle.
    change (is_nan 0) with false. cbn [orb].
    destruct s; [done|]. cbn [negb].
    unfold JS.Math_min. rewrite Hnan. change (is_nan 100) with false. cbn [orb].
    rewrite Hsign, !FloatAxioms.ltb_spec, FloatAxioms.leb_spec, E.
    change (Prim2SF 100) with B64.hundred. unfold SFltb, SFleb, B64.hundred.
    rewrite (SFcompare_positive_antisym m 7036874417766400 e (-46)).
    by destruct (SFcompare (S754_finite false m e)
                   (S754_finite false 7036874417766400 (-46))) as [[]|] eqn:Hc;
      cbn [SFcompare] in Hc.
Qed.

(** The clamp of a number is NaN when the number is, and lies in
    [0, 100] otherwise. *)
Lemma clamp_range (x : float) :
  (Prim2SF x = S754_nan ∧ Spec.clamp x 0 100 = nan)
  ∨ (Prim2SF x ≠ S754_nan
     ∧ (0 <=? Spec.clamp x 0 100)%float = true ∧ (Spec.clamp x 0 100 <=? 100)%float = true).
Proof.
  destruct (Prim2SF x) as [s|s| |s m e] eqn:E.
  - apply of_Prim2SF in E as ->. right. by destruct s.
  - apply of_Prim2SF in E as ->. right. by destruct s.
  - apply of_Prim2SF in E as ->. by left.
  - right. split; [done|].
    destruct (float_finite_tests x s m e E) as (Hnan & Hsign & Hlt & Hgt & Hle).
    unfold Spec.clamp. rewrite Hle. destruct s; [done|].
    destruct (100 <=? x)%float eqn:Hh; [done|].
    rewrite FloatAxioms.leb_spec in Hh. rewrite !FloatAxioms.leb_spec, E in *.
    change (Prim2SF 100) with B64.hundred in *. change (Prim2SF 0) with (S754_zero false).
    split; [done|]. unfold SFleb, B64.hundred in *.
    rewrite (SFcompare_positive_antisym m 7036874417766400 e (-46)) in Hh. revert Hh.
    by destruct (SFcompare (S754_finite false m e)
                   (S754_finite false 7036874417766400 (-46))) as [[]|] eqn:Hc;
      cbn [SFcompare] in Hc; cbn [option_map CompOpp].
Qed.









End binary64.

(** *** The split position *)




(** ** Byte-size labels (C9) *)

Lemma toFixed1_digits_nearest (x : Q) :
  Spec.rounded_to_one_decimal (JS.toFixed1_digits x) x.
Proof.
  intros t'. unfold JS.toFixed1_digits.
  set (t := Qfloor (x * 10 + (1 # 2))).
  pose proof (Qfloor_le (x * 10 + (1 # 2))) as Hlo.
  pose proof (Qlt_floor (x * 10 + (1 # 2))) as Hhi.
  fold t in Hlo, Hhi. rewrite inject_Z_plus in Hhi.
  change (inject_Z 1) with 1%Q in Hhi.
  assert (inject_Z t / 10 * 10 == inject_Z t)%Q as Ha by (field; discriminate).
  assert (inject_Z t' / 10 * 10 == inject_Z t')%Q as Ha' by (field; discriminate).
  assert (t' ≤ t - 1 ∨ t' = t ∨ t + 1 ≤ t')%Z as [Ht|[->|Ht]] by lia.
  - rewrite Zle_Qle in Ht. unfold Z.sub in Ht.
    rewrite inject_Z_plus, inject_Z_opp in Ht. change (inject_Z 1) with 1%Q in Ht.
    revert Ha Ha'. generalize (inject_Z t / 10)%Q (inject_Z t' / 10)%Q. intros a a' Ha Ha'.
    apply Qabs_case; intros; apply Qabs_case; intros; lra.
  - apply Qle_refl.
  - rewrite Zle_Qle, inject_Z_plus in Ht. change (inject_Z 1) with 1%Q in Ht.
    revert Ha Ha'. generalize (inject_Z t / 10)%Q (inject_Z t' / 10)%Q. intros a a' Ha Ha'.
    apply Qabs_case; intros; apply Qabs_case; intros; lra.
Qed.

Lemma toFixed1_digits_nonneg (x : Q) : (0 <= x)%Q → (0 ≤ JS.toFixed1_digits x)%Z.
Proof.
  intros Hx. unfold JS.toFixed1_digits.
  change 0%Z with (Qfloor 0). apply Qfloor_resp_le. lra.
Qed.

Lemma read_digits_acc (d : Decimal.uint) (acc : positive) :
  Spec.read_digits (N.pos acc) (NilEmpty.string_of_uint d)
  = Some (N.pos (Pos.of_uint_acc d acc)).
Proof.
  revert acc.
  induction d; intros acc;
    cbn [NilEmpty.string_of_uint Spec.read_digits Pos.of_uint_acc];
    [done|..]; (etrans; [|apply IHd]); f_equal;
    match goal with |- context [N_of_ascii ?c] =>
      let k := eval vm_compute in (N_of_ascii c - 48)%N in
      change (N_of_ascii c - 48)%N with k end; lia.
Qed.

Lemma read_digits_of_uint (d : Decimal.uint) :
  Spec.read_digits 0 (NilEmpty.string_of_uint d) = Some (Pos.of_uint d).
Proof.
  induction d; cbn [NilEmpty.string_of_uint Spec.read_digits Pos.of_uint];
    [done|exact IHd|..]; apply read_digits_acc.
Qed.

(** What the template literal prints for [n] is the decimal numeral of
    [n]. *)
Lemma Number_toString_numeral (n : N) : Spec.numeral (JS.Number_toString n) n.
Proof.
  unfold JS.Number_toString.
  assert (N.to_uint n = Decimal.unorm (N.to_uint n)) as Hn.
  { rewrite <- DecimalN.Unsigned.to_of. by rewrite DecimalN.Unsigned.of_to. }
  assert (Spec.read_digits 0 (NilZero.string_of_uint (N.to_uint n)) = Some n) as Hread.
  { rewrite <- (DecimalN.Unsigned.of_to n) at 2.
    destruct (N.to_uint n); try apply read_digits_of_uint. done. }
  split; [|split; [|exact Hread]].
  - destruct (N.to_uint n); done.
  - intros s'. rewrite Hn. unfold Decimal.unorm.
    pose proof (DecimalFacts.nzhead_nonzero (N.to_uint n)) as Hz.
    destruct (Decimal.nzhead (N.to_uint n)) as [|d| | | | | | | | |] eqn:Hd;
      try discriminate; [by intros [= <-]|].
    by destruct (Hz d).
Qed.

Lemma Number_toFixed1_one_decimal (x : Q) :
  Spec.one_decimal (JS.Number_toFixed1 x) (JS.toFixed1_digits x).
Proof.
  eexists _, _. split; [reflexivity|]. split; apply Number_toString_numeral.
Qed.

(** C9: for every byte size [n], [formatFileSize] prints the decimal
    numeral of [n] followed by " B" when [n < 1024]; when
    [1024 <= n < 1048576] it prints, with one decimal and followed by
    " KB", the number of tenths nearest to [n / 1024]; otherwise it
    prints, with one decimal and followed by " MB", the number of tenths
    nearest to [n / 1048576]. *)
Theorem formatFileSize_rounds (n : N) :
  ((n < 1024)%N →
     ∃ s : string, formatFileSize n = s ++ " B" ∧ Spec.numeral s n)
  ∧ ((1024 ≤ n < 1048576)%N →
     ∃ (t : Z) (s : string),
       formatFileSize n = s ++ " KB"
       ∧ Spec.one_decimal s t
       ∧ (0 ≤ t)%Z
       ∧ Spec.rounded_to_one_decimal t (inject_Z (Z.of_N n) / 1024))
  ∧ ((1048576 ≤ n)%N →
     ∃ (t : Z) (s : string),
       formatFileSize n = s ++ " MB"
       ∧ Spec.one_decimal s t
       ∧ (0 ≤ t)%Z
       ∧ Spec.rounded_to_one_decimal t (inject_Z (Z.of_N n) / 1048576)).
Proof.
  assert (∀ d : Q, (0 < d)%Q → (0 <= inject_Z (Z.of_N n) / d)%Q) as Hpos.
  { intros d Hd. apply Qle_shift_div_l; [done|]. rewrite Qmult_0_l.
    change 0%Q with (inject_Z 0). rewrite <- Zle_Qle. lia. }
  unfold formatFileSize. split; [|split].
  - intros Hn. apply N.ltb_lt in Hn. rewrite Hn.
    eexists. split; [reflexivity|]. apply Number_toString_numeral.
  - intros [Hlo Hhi]. apply N.ltb_ge in Hlo. rewrite Hlo.
    change (1024 * 1024)%N with 1048576%N. apply N.ltb_lt in Hhi. rewrite Hhi.
    eexists _, _. split; [reflexivity|]. split; [apply Number_toFixed1_one_decimal|]. split.
    + apply toFixed1_digits_nonneg, Hpos. done.
    + apply toFixed1_digits_nearest.
  - intros Hlo.
    assert ((n <? 1024)%N = false) as -> by (apply N.ltb_ge; lia).
    change (1024 * 1024)%N with 1048576%N. apply N.ltb_ge in Hlo. rewrite Hlo.
    eexists _, _. split; [reflexivity|]. split; [apply Number_toFixed1_one_decimal|]. split.
    + apply toFixed1_digits_nonneg, Hpos. done.
    + apply toFixed1_digits_nearest.
Qed.

Lemma formatFileSize_rounds_witness :
  (formatFileSize 1023 = "1023 B"
   ∧ formatFileSize 1280 = "1.3 KB"
   ∧ formatFileSize 5000000 = "4.8 MB")
  ∧ (∃ s : string, formatFileSize 1023 = s ++ " B" ∧ Spec.numeral s 1023)
  ∧ (∃ (t : Z) (s : string),
       formatFileSize 1280 = s ++ " KB"
       ∧ Spec.one_decimal s t
       ∧ (0 ≤ t)%Z
       ∧ Spec.rounded_to_one_decimal t (inject_Z (Z.of_N 1280) / 1024))
  ∧ (∃ (t : Z) (s : string),
       formatFileSize 5000000 = s ++ " MB"
       ∧ Spec.one_decimal s t
       ∧ (0 ≤ t)%Z
       ∧ Spec.rounded_to_one_decimal t (inject_Z (Z.of_N 5000000) / 1048576)).
Proof.
  split; [by vm_compute|]. split; [|split].
  - apply (proj1 (formatFileSize_rounds 1023)). lia.
  - apply (proj1 (proj2 (formatFileSize_rounds 1280))). lia.
  - apply (proj2 (proj2 (formatFileSize_rounds 5000000))). lia.
Defined.

(** ** Locators on display, and sessions without overlapping conversions (C3) *)

Lemma exec_bind {A B} (m : M A) (k : A → M B) w :
  exec (bind m k) w = exec (k (m w).1) (exec m w).
Proof. unfold exec, bind. by destruct (m w). Qed.

Lemma quiescent_lookup w i t :
  quiescent w = true → tasks w !! i = Some t → in_flight t = false.
Proof.
  unfold quiescent. rewrite forallb_forall. intros Hq Hi.
  apply negb_true_iff, Hq, list_elem_of_In, list_elem_of_lookup. eauto.
Qed.

Lemma delivered_in_flight t n b : delivered t n = Some b → in_flight t = true.
Proof. unfold delivered, in_flight. by destruct (task_stage t). Qed.

(** *** Every session is sound *)

Lemma next_url_free w : sound w → urls w !! next_url w = None.
Proof.
  intros Hw. destruct (urls w !! next_url w) eqn:E; [|done].
  assert (next_url w < next_url w) by (apply (sound_fresh w Hw); eauto). lia.
Qed.

Lemma sound_initial : sound initial_world.
Proof.
  split; simpl; try done.
  intros u [x Hx]. by rewrite lookup_empty in Hx.
Qed.

Lemma sound_knows_current w : sound w → knows_a_blob_locator w (st w).
Proof.
  intros Hw u Hu. destruct (sound_rendered w Hw u Hu) as (b & Hb & _). split.
  - apply (sound_fresh w Hw). eauto.
  - intros f. congruence.
Qed.

Lemma sound_modify_state f w :
  sound w →
  convertedUrl (f (st w)) = convertedUrl (st w) →
  convertedBlob (f (st w)) = convertedBlob (st w) →
  originalUrl (f (st w)) = originalUrl (st w) →
  file (f (st w)) = file (st w) →
  sound (exec (modify_state f) w).
Proof.
  intros [] Hcu Hcb Hou Hf. split; cbn; rewrite ?Hcu, ?Hcb, ?Hou, ?Hf; done.
Qed.

(** A new locator for a source file disturbs nothing that was known. *)
Lemma sound_file_locator f w :
  sound w → sound (exec (URL_createObjectURL (OFile f)) w).
Proof.
  intros Hw. pose proof (next_url_free w Hw) as Hnone.
  destruct Hw as [Hrend Horig Hfresh Hknown]. split; cbn.
  - intros u Hu. destruct (Hrend u Hu) as (b & Hb & Hcb). exists b. split; [|done].
    rewrite lookup_insert_ne; [done|]. intros <-. congruence.
  - intros u Hu. destruct (Horig u Hu) as (g & Hg & Hfile). exists g. split; [|done].
    rewrite lookup_insert_ne; [done|]. intros <-. congruence.
  - intros u. destruct (decide (u = next_url w)) as [->|Hne]; [lia|].
    rewrite lookup_insert_ne by done. intros Hu. specialize (Hfresh u Hu). lia.
  - intros i t Hi u Hu. destruct (Hknown i t Hi u Hu) as [Hlt Hnf]. cbn.
    split; [lia|]. intros g. rewrite lookup_insert_ne; [apply Hnf|lia].
Qed.

Lemma knows_after_file_locator f r w :
  knows_a_blob_locator w r →
  knows_a_blob_locator (exec (URL_createObjectURL (OFile f)) w) r.
Proof.
  intros Hr u Hu. destruct (Hr u Hu) as [Hlt Hnf]. cbn. split; [lia|].
  intros g. rewrite lookup_insert_ne; [apply Hnf|lia].
Qed.

Lemma sound_spawn r f w :
  sound w → knows_a_blob_locator w r →
  sound (exec (spawn {| task_render := r; task_input := f; task_stage := Loading |}) w).
Proof.
  intros [Hrend Horig Hfresh Hknown] Hr. split; cbn; try done.
  intros i t [Hi|[_ Hi]]%lookup_app_Some.
  - by apply (Hknown i).
  - by apply list_lookup_singleton_Some in Hi as [_ <-].
Qed.

Lemma sound_convertOnly r f w :
  sound w → knows_a_blob_locator w r → sound (exec (convertOnly r f) w).
Proof.
  intros Hw Hr. unfold convertOnly.
  change (exec _ w) with
    (exec (spawn {| task_render := r; task_input := f; task_stage := Loading |})
       (exec (URL_createObjectURL (OFile f)) w)).
  apply sound_spawn; [by apply sound_file_locator|by apply knows_after_file_locator].
Qed.

Lemma sound_autoConvert r f w :
  sound w → knows_a_blob_locator w r → sound (exec (autoConvert r f) w).
Proof.
  intros Hw Hr. unfold autoConvert.
  destruct (_ || _).
  - change (exec _ w) with (exec (convertOnly r f) (exec (setFormat png) w)).
    apply sound_convertOnly; [by apply sound_modify_state|done].
  - change (exec _ w) with (exec (convertOnly r f) (exec (setFormat jpeg) w)).
    apply sound_convertOnly; [by apply sound_modify_state|done].
Qed.

(** The first three statements of [handleNewFile]. *)
Lemma sound_ingest f w :
  sound w →
  sound (exec (bind (URL_createObjectURL (OFile f))
                 (λ url, bind (setFile (Some f)) (λ _, setOriginalUrl (Some url)))) w).
Proof.
  intros Hw. destruct (sound_file_locator f w Hw) as [Hrend Horig Hfresh Hknown].
  split; cbn; try done.
  intros u [= <-]. exists f. by rewrite lookup_insert_eq.
Qed.

Lemma sound_handleNewFile r f w :
  sound w → knows_a_blob_locator w r → sound (exec (handleNewFile r f) w).
Proof.
  intros Hw Hr.
  change (exec (handleNewFile r f) w)
    with (exec (autoConvert r f)
            (exec (bind (URL_createObjectURL (OFile f))
                     (λ url, bind (setFile (Some f)) (λ _, setOriginalUrl (Some url)))) w)).
  apply sound_autoConvert; [by apply sound_ingest|].
  by apply (knows_after_file_locator f) in Hr.
Qed.

Lemma sound_handlePaste items w :
  sound w → sound (exec (handlePaste initial_state items) w).
Proof.
  revert w. induction items as [|item items IH]; intros w Hw; [done|].
  cbn [handlePaste].
  destruct (JS.startsWith "image/" (item_type item)); [|by rewrite exec_bind; apply IH].
  destruct (item_file item) as [pastedFile|]; [|by rewrite exec_bind; apply IH].
  rewrite exec_bind. apply IH, sound_handleNewFile; [done|]. by intros u.
Qed.

Lemma sound_handleReset w : sound w → sound (exec handleReset w).
Proof. intros []. by split. Qed.

Lemma sound_handleDownload w : sound w → sound (exec (handleDownload (st w)) w).
Proof.
  intros Hw. unfold handleDownload. destruct (convertedBlob (st w)) as [b|]; [|done].
  pose proof (next_url_free w Hw) as Hnone.
  destruct Hw as [Hrend Horig Hfresh Hknown]. split; cbn.
  - intros u Hu. destruct (Hrend u Hu) as (b' & Hb & Hcb). exists b'. split; [|done].
    rewrite lookup_insert_ne; [done|]. intros <-. congruence.
  - intros u Hu. destruct (Horig u Hu) as (g & Hg & Hfile). exists g. split; [|done].
    rewrite lookup_insert_ne; [done|]. intros <-. congruence.
  - intros u. destruct (decide (u = next_url w)) as [->|Hne]; [lia|].
    rewrite lookup_insert_ne by done. intros Hu. specialize (Hfresh u Hu). lia.
  - intros i t Hi u Hu. destruct (Hknown i t Hi u Hu) as [Hlt Hnf]. cbn.
    split; [lia|]. intros g. rewrite lookup_insert_ne; [apply Hnf|lia].
Qed.

Lemma sound_set_stage i t s w :
  sound w → tasks w !! i = Some t → sound (exec (set_stage i t s) w).
Proof.
  intros [Hrend Horig Hfresh Hknown] Hi. split; cbn; try done.
  intros j tj [(-> & <- & _)|[Hne Hj]]%list_lookup_insert_Some.
  - exact (Hknown _ _ Hi).
  - exact (Hknown _ _ Hj).
Qed.

Lemma sound_img_onload i ctx w : sound w → sound (exec (img_onload i ctx) w).
Proof.
  intros Hw. unfold exec at 1, img_onload.
  destruct (tasks w !! i) as [[r f [| |]]|] eqn:Hi; try done.
  destruct ctx; cbn [negb]; by eapply sound_set_stage.
Qed.

(** The encoder delivers a blob: the locator the issuing render knew
    is revoked and a new one is put on display. *)
Lemma sound_publish i t n b w :
  sound w → tasks w !! i = Some t → delivered t n = Some b →
  sound (exec (toBlob_done i (Some n)) w).
Proof.
  intros Hw Hi Hb. pose proof (next_url_free w Hw) as Hnone.
  destruct Hw as [Hrend Horig Hfresh Hknown].
  pose proof (Hknown i t Hi) as Hr.
  rewrite (toBlob_done_publishes w i t n b Hi Hb).
  assert (∀ u g, revoke_known (task_render t) (urls w) !! u = Some (OFile g) ↔
                 urls w !! u = Some (OFile g)) as Hfiles.
  { intros u g. unfold revoke_known.
    destruct (convertedUrl (task_render t)) as [c|] eqn:Hc; [|done].
    rewrite lookup_delete_Some. split; [by intros [_ ?]|]. intros Hu. split; [|done].
    intros ->. by destruct (Hr u Hc) as [_ Hnf]; destruct (Hnf g). }
  split; cbn.
  - intros u [= <-]. exists b. by rewrite lookup_insert_eq.
  - intros u Hu. destruct (Horig u Hu) as (g & Hg & Hfile). exists g. split; [|done].
    rewrite lookup_insert_ne by (intros <-; congruence). by apply Hfiles.
  - intros u. destruct (decide (u = next_url w)) as [->|Hne]; [lia|].
    rewrite lookup_insert_ne by done. intros [x Hx].
    assert (is_Some (urls w !! u)) as Hlive.
    { unfold revoke_known in Hx. destruct (convertedUrl (task_render t)); [|by eauto].
      apply lookup_delete_Some in Hx as [_ Hx]. eauto. }
    specialize (Hfresh u Hlive). lia.
  - intros j tj Hj u Hu.
    assert (u < next_url w ∧ ∀ g, urls w !! u ≠ Some (OFile g)) as [Hlt Hnf].
    { apply list_lookup_insert_Some in Hj as [(-> & <- & _)|[Hne Hj]].
      - by apply Hr.
      - by apply (Hknown j tj). }
    cbn. split; [lia|]. intros g. rewrite lookup_insert_ne by lia.
    rewrite Hfiles. apply Hnf.
Qed.

Lemma sound_toBlob_done i result w : sound w → sound (exec (toBlob_done i result) w).
Proof.
  intros Hw. destruct (tasks w !! i) as [t|] eqn:Hi.
  - destruct result as [n|].
    + destruct (delivered t n) as [b|] eqn:Hb; [by eapply sound_publish|].
      unfold exec, toBlob_done. rewrite Hi. unfold delivered in Hb.
      destruct t as [r f [| |]]; done.
    + destruct (task_stage t) as [|m q|] eqn:Hst.
      * unfold exec, toBlob_done. rewrite Hi. destruct t; simpl in Hst. by subst.
      * assert (in_flight t = true) as Hfl by (unfold in_flight; by rewrite Hst).
        rewrite (toBlob_done_null w i t Hi Hfl) by congruence.
        by apply (sound_set_stage i t Finished).
      * unfold exec, toBlob_done. rewrite Hi. destruct t; simpl in Hst. by subst.
  - unfold exec, toBlob_done. by rewrite Hi.
Qed.

Lemma sound_step w e : sound w → sound (step w e).
Proof.
  intros Hw. pose proof (sound_knows_current w Hw) as Hst.
  destruct e; simpl.
  - destruct (view_mounted w); [done|].
    destruct acceptedFiles as [|f fs]; [done|]. by apply sound_handleNewFile.
  - by apply sound_handlePaste.
  - destruct (view_mounted w); [|done].
    unfold handleFormatChange. rewrite exec_bind.
    assert (sound (exec (setFormat value) w)) as Hw' by by apply sound_modify_state.
    destruct (file (st w)); [|done]. by apply sound_convertOnly.
  - destruct (view_mounted w); [|done].
    unfold handleQualityChange. rewrite exec_bind.
    assert (sound (exec (setQuality newQuality) w)) as Hw' by by apply sound_modify_state.
    destruct (file (st w)); [|done]. by apply sound_convertOnly.
  - destruct (view_mounted w); [|done]. by apply sound_handleReset.
  - destruct (view_mounted w); [|done]. by apply sound_handleDownload.
  - destruct (view_mounted w); [|done]. by apply sound_modify_state.
  - destruct (view_mounted w); [|done]. by apply sound_modify_state.
  - destruct (view_mounted w); [|done]. by apply sound_modify_state.
  - by apply sound_img_onload.
  - by apply sound_toBlob_done.
Qed.

Lemma sound_run es w : sound w → sound (run w es).
Proof.
  revert w. induction es as [|e es IH]; intros w Hw; [done|].
  simpl. by apply IH, sound_step.
Qed.

(** *** Sessions without overlapping conversions are hygienic *)

Lemma hygienic_initial : hygienic initial_world.
Proof.
  split; simpl; try done.
  - constructor.
  - intros u Hu. by apply elem_of_nil in Hu.
Qed.

Lemma hygienic_modify_state f w :
  hygienic w → convertedUrl (f (st w)) = convertedUrl (st w) →
  hygienic (exec (modify_state f) w).
Proof. intros [] Hcu. split; cbn; rewrite ?Hcu; done. Qed.

Lemma hygienic_file_locator f w :
  sound w → hygienic w → hygienic (exec (URL_createObjectURL (OFile f)) w).
Proof.
  intros Hw [Hconv Hnd Hrev Hknown Hsingle]. split; cbn; try done.
  - intros u b. destruct (decide (u = next_url w)) as [->|Hne].
    + by rewrite lookup_insert_eq.
    + rewrite lookup_insert_ne by done. apply Hconv.
  - intros u Hu. destruct (Hrev u Hu) as [Hn Hlt]. split; [|lia].
    rewrite lookup_insert_ne; [done|lia].
Qed.

Lemma hygienic_spawn r f w :
  hygienic w → quiescent w = true → convertedUrl r = convertedUrl (st w) →
  hygienic (exec (spawn {| task_render := r; task_input := f; task_stage := Loading |}) w).
Proof.
  intros [Hconv Hnd Hrev Hknown Hsingle] Hq Hr. split; cbn; try done.
  - intros i t [Hi|[Hlen Hi]]%lookup_app_Some Hfl.
    + by rewrite (quiescent_lookup w i t Hq Hi) in Hfl.
    + by apply list_lookup_singleton_Some in Hi as [_ <-].
  - intros i j ti tj [Hi|[Hleni Hi]]%lookup_app_Some [Hj|[Hlenj Hj]]%lookup_app_Some Hfi Hfj.
    + by rewrite (quiescent_lookup w i ti Hq Hi) in Hfi.
    + by rewrite (quiescent_lookup w i ti Hq Hi) in Hfi.
    + by rewrite (quiescent_lookup w j tj Hq Hj) in Hfj.
    + apply list_lookup_singleton_Some in Hi as [Hi _].
      apply list_lookup_singleton_Some in Hj as [Hj _]. lia.
Qed.

Lemma hygienic_convertOnly r f w :
  sound w → hygienic w → quiescent w = true → convertedUrl r = convertedUrl (st w) →
  hygienic (exec (convertOnly r f) w).
Proof.
  intros Hs Hw Hq Hr. unfold convertOnly.
  change (exec _ w) with
    (exec (spawn {| task_render := r; task_input := f; task_stage := Loading |})
       (exec (URL_createObjectURL (OFile f)) w)).
  apply hygienic_spawn; [by apply hygienic_file_locator|done..].
Qed.

Lemma hygienic_autoConvert r f w :
  sound w → hygienic w → quiescent w = true → convertedUrl r = convertedUrl (st w) →
  hygienic (exec (autoConvert r f) w).
Proof.
  intros Hs Hw Hq Hr. unfold autoConvert. rewrite exec_bind.
  by destruct (_ || _);
    (apply hygienic_convertOnly;
     [by apply sound_modify_state|by apply hygienic_modify_state|done..]).
Qed.

Lemma hygienic_handleNewFile f w :
  sound w → hygienic w → quiescent w = true →
  hygienic (exec (handleNewFile (st w) f) w).
Proof.
  intros Hs Hw Hq.
  change (exec (handleNewFile (st w) f) w)
    with (exec (autoConvert (st w) f)
            (exec (bind (URL_createObjectURL (OFile f))
                     (λ url, bind (setFile (Some f)) (λ _, setOriginalUrl (Some url)))) w)).
  apply hygienic_autoConvert; [by apply sound_ingest| |done..].
  destruct (hygienic_file_locator f w Hs Hw). by split.
Qed.

(** A conversion in flight moves on; its render stays. *)
Lemma hygienic_set_stage i t s w :
  hygienic w → tasks w !! i = Some t → in_flight t = true →
  hygienic (exec (set_stage i t s) w).
Proof.
  intros [Hconv Hnd Hrev Hknown Hsingle] Hi Hfl.
  split; cbn; try done.
  - intros j tj [(-> & <- & _)|[Hne Hj]]%list_lookup_insert_Some Hfj.
    + exact (Hknown _ _ Hi Hfl).
    + exact (Hknown _ _ Hj Hfj).
  - intros j k tj tk [(-> & <- & _)|[Hnj Hj]]%list_lookup_insert_Some
                     [(-> & <- & _)|[Hnk Hk]]%list_lookup_insert_Some Hfj Hfk.
    + done.
    + exact (Hsingle _ _ _ _ Hi Hk Hfl Hfk).
    + exact (Hsingle _ _ _ _ Hj Hi Hfj Hfl).
    + exact (Hsingle _ _ _ _ Hj Hk Hfj Hfk).
Qed.

Lemma hygienic_img_onload i ctx w :
  hygienic w → hygienic (exec (img_onload i ctx) w).
Proof.
  intros Hw. unfold exec at 1, img_onload.
  destruct (tasks w !! i) as [[r f [| |]]|] eqn:Hi; try done.
  destruct ctx; cbn [negb]; by eapply hygienic_set_stage.
Qed.

(** The encoder delivers a blob to the one conversion in flight: the
    locator on display is revoked and replaced in the same callback. *)
Lemma hygienic_publish i t n b w :
  sound w → hygienic w → tasks w !! i = Some t → delivered t n = Some b →
  hygienic (exec (toBlob_done i (Some n)) w).
Proof.
  intros Hs [Hconv Hnd Hrev Hknown Hsingle] Hi Hb.
  pose proof (next_url_free w Hs) as Hnone.
  destruct Hs as [Hrend _ Hfresh _].
  pose proof (delivered_in_flight _ _ _ Hb) as Hfl.
  pose proof (Hknown _ _ Hi Hfl) as Hr.
  rewrite (toBlob_done_publishes w i t n b Hi Hb).
  unfold revoke_known, revocation_known. rewrite Hr.
  assert (∀ j tj, <[i:=finish t]> (tasks w) !! j = Some tj → in_flight tj = false) as Hdone.
  { intros j tj [(-> & <- & _)|[Hne Hj]]%list_lookup_insert_Some; [done|].
    destruct (in_flight tj) eqn:Hfj; [|done].
    by destruct Hne; apply (Hsingle _ _ _ _ Hi Hj). }
  split; cbn.
  - intros u b'. destruct (decide (u = next_url w)) as [->|Hne]; [done|].
    rewrite lookup_insert_ne by done. intros Hu.
    destruct (convertedUrl (st w)) as [c|] eqn:Hc.
    + apply lookup_delete_Some in Hu as [Hcu Hu]. apply Hconv in Hu. congruence.
    + apply Hconv in Hu. congruence.
  - destruct (convertedUrl (st w)) as [c|] eqn:Hc; [|done].
    constructor; [|done]. intros Hin. destruct (Hrev c Hin) as [Hn _].
    destruct (Hrend c eq_refl) as (b' & Hb' & _). congruence.
  - intros u Hu.
    assert (u < next_url w ∧
            (match convertedUrl (st w) with
             | Some c => delete c (urls w)
             | None => urls w
             end) !! u = None) as [Hlt Hgone].
    { destruct (convertedUrl (st w)) as [c|] eqn:Hc.
      - apply elem_of_cons in Hu as [->|Hu].
        + destruct (Hrend c eq_refl) as (b' & Hb' & _).
          split; [apply Hfresh; eauto|apply lookup_delete_eq].
        + destruct (Hrev u Hu) as [Hn Hlt]. split; [done|].
          apply lookup_delete_None. by right.
      - destruct (Hrev u Hu) as [Hn Hlt]. done. }
    split; [|lia]. rewrite lookup_insert_ne; [done|lia].
  - intros j tj Hj Hfj. by rewrite (Hdone _ _ Hj) in Hfj.
  - intros j k tj tk Hj _ Hfj. by rewrite (Hdone _ _ Hj) in Hfj.
Qed.

Lemma hygienic_toBlob_done i result w :
  sound w → hygienic w → hygienic (exec (toBlob_done i result) w).
Proof.
  intros Hs Hw. destruct (tasks w !! i) as [t|] eqn:Hi.
  - destruct result as [n|].
    + destruct (delivered t n) as [b|] eqn:Hb; [by eapply hygienic_publish|].
      unfold exec, toBlob_done. rewrite Hi. unfold delivered in Hb.
      destruct t as [r f [| |]]; done.
    + destruct (task_stage t) as [|m q|] eqn:Hst.
      * unfold exec, toBlob_done. rewrite Hi. destruct t; simpl in Hst. by subst.
      * assert (in_flight t = true) as Hfl by (unfold in_flight; by rewrite Hst).
        rewrite (toBlob_done_null w i t Hi Hfl) by congruence.
        by apply (hygienic_set_stage i t Finished).
      * unfold exec, toBlob_done. rewrite Hi. destruct t; simpl in Hst. by subst.
  - unfold exec, toBlob_done. by rewrite Hi.
Qed.

Lemma hygienic_step w e :
  sound w → hygienic w → sequential_event w e = true → hygienic (step w e).
Proof.
  intros Hs Hw He. destruct e; simpl in *; try discriminate He.
  - destruct (view_mounted w); [done|].
    destruct acceptedFiles as [|f fs]; [done|]. by apply hygienic_handleNewFile.
  - destruct (view_mounted w); [|done].
    unfold handleFormatChange. rewrite exec_bind.
    assert (hygienic (exec (setFormat value) w)) as Hw' by by apply hygienic_modify_state.
    assert (sound (exec (setFormat value) w)) as Hs' by by apply sound_modify_state.
    destruct (file (st w)); [|done]. by apply hygienic_convertOnly.
  - destruct (view_mounted w); [|done].
    unfold handleQualityChange. rewrite exec_bind.
    assert (hygienic (exec (setQuality newQuality) w)) as Hw'
      by by apply hygienic_modify_state.
    assert (sound (exec (setQuality newQuality) w)) as Hs' by by apply sound_modify_state.
    destruct (file (st w)); [|done]. by apply hygienic_convertOnly.
  - destruct (view_mounted w); [|done]. by apply hygienic_modify_state.
  - destruct (view_mounted w); [|done]. by apply hygienic_modify_state.
  - destruct (view_mounted w); [|done]. by apply hygienic_modify_state.
  - by apply hygienic_img_onload.
  - by apply hygienic_toBlob_done.
Qed.

Lemma hygienic_run es w :
  sound w → hygienic w → sequential w es = true → hygienic (run w es).
Proof.
  revert w. induction es as [|e es IH]; intros w Hs Hw Hseq; [done|].
  simpl in Hseq. apply andb_true_iff in Hseq as [He Hseq].
  simpl. apply IH; [by apply sound_step|by apply hygienic_step|done].
Qed.

(** C3, amended: in every session, whatever the gestures and the
    order of completions, the converted locator on display is live and
    designates the converted blob, and the original locator on display is
    live: no revoked locator is rendered.  In a session whose conversions
    do not overlap (a file is dropped, and every format or quality change
    is made when no conversion is in flight; no reset, download or
    paste), at every inspection point at most one converted-image locator
    is live and, once a conversion is on display, the live converted
    locators are exactly the one rendered; no locator was revoked twice
    and no revoked locator is live, so each superseded converted locator
    was revoked once, by the callback that published its replacement. *)
Theorem locators_in_sessions (es : list Event) :
  let w := run initial_world es in
  (∀ u, convertedUrl (st w) = Some u →
        ∃ b, urls w !! u = Some (OBlob b) ∧ convertedBlob (st w) = Some b)
  ∧ (∀ u, originalUrl (st w) = Some u → Spec.original_locator w u)
  ∧ (sequential initial_world es = true →
     Spec.at_most_one (Spec.converted_locator w)
     ∧ (∀ u, convertedUrl (st w) = Some u → ∀ u', Spec.converted_locator w u' ↔ u' = u)
     ∧ NoDup (revoked w)
     ∧ (∀ u, u ∈ revoked w → ¬ Spec.live w u)).
Proof.
  pose proof (sound_run es initial_world sound_initial) as Hs.
  cbv zeta. split; [by apply sound_rendered|]. split.
  { intros u Hu. destruct (sound_original _ Hs u Hu) as (f & Hf & _). by exists f. }
  intros Hseq.
  pose proof (hygienic_run es initial_world sound_initial hygienic_initial Hseq) as
    [Hconv Hnd Hrev Hknown Hsingle].
  split; [|split; [|split]].
  - intros u1 u2 [b1 H1] [b2 H2]. apply Hconv in H1, H2. congruence.
  - intros u Hu u'. split.
    + intros [b Hb]. apply Hconv in Hb. congruence.
    + intros ->. destruct (sound_rendered _ Hs u Hu) as (b & Hb & _). by exists b.
  - done.
  - intros u Hu [x Hx]. destruct (Hrev u Hu) as [Hn _]. congruence.
Qed.

Lemma locators_in_sessions_witness :
  let w := run initial_world session_sequential in
  Spec.at_most_one (Spec.converted_locator w)
  ∧ (∀ u, convertedUrl (st w) = Some u → ∀ u', Spec.converted_locator w u' ↔ u' = u)
  ∧ NoDup (revoked w)
  ∧ (∀ u, u ∈ revoked w → ¬ Spec.live w u).
Proof.
  apply (proj2 (proj2 (locators_in_sessions session_sequential))). reflexivity.
Defined.

(** C3 as stated fails.  When two conversions overlap, both callbacks
    revoke the locator their renders knew and each publishes a new one:
    two converted locators are live afterwards.  And every conversion
    makes a locator of the source for [img.src] that is never revoked:
    with the first conversion on display, two original locators are
    live. *)
Lemma overlapping_conversions_leak_a_locator :
  ¬ Spec.at_most_one
      (Spec.converted_locator
         (run session_racing [BlobDone 2 (Some 300%N); BlobDone 1 (Some 200%N)]))
  ∧ ¬ Spec.at_most_one (Spec.original_locator session_loaded).
Proof.
  split; intros H.
  - assert (5 = 6)%nat as Heq; [|discriminate Heq].
    apply H; vm_compute; eexists; reflexivity.
  - assert (0 = 1)%nat as Heq; [|discriminate Heq].
    apply H; vm_compute; eexists; reflexivity.
Qed.

(** * Further properties of the component *)

(** ** Ingestion: paste and drop *)

Lemma handleNewFile_effect r f w :
  let w' := exec (handleNewFile r f) w in
  file (st w') = Some f
  ∧ originalUrl (st w') = Some (next_url w)
  ∧ convertedUrl (st w') = convertedUrl (st w)
  ∧ convertedBlob (st w') = convertedBlob (st w)
  ∧ quality (st w') = quality (st w)
  ∧ zoomLevel (st w') = zoomLevel (st w)
  ∧ urls w' = <[S (next_url w) := OFile f]> (<[next_url w := OFile f]> (urls w))
  ∧ next_url w' = S (S (next_url w))
  ∧ revoked w' = revoked w
  ∧ tasks w' = (tasks w ++ [issued r f])%list
  ∧ downloads w' = downloads w.
Proof.
  unfold handleNewFile, autoConvert, exec, bind. cbn.
  by destruct (_ || _).
Qed.

Lemma handlePaste_fold r items w :
  exec (handlePaste r items) w
  = foldl (λ w f, exec (handleNewFile r f) w) w (pasted_files items).
Proof.
  revert w. induction items as [|item items IH]; intros w; [done|].
  cbn [handlePaste]. rewrite exec_bind, IH. unfold pasted_files. cbn [omap list_omap].
  destruct (JS.startsWith "image/" (item_type item)); [|done].
  by destruct (item_file item).
Qed.

(** X1: a paste that carries no image file (only items of other types,
    or image items that yield no file) changes nothing: no state, no
    locator, no conversion. *)
Theorem paste_without_image_changes_nothing (w : World) (items : list ClipItem) :
  pasted_files items = [] → step w (Paste items) = w.
Proof. intros Hnone. simpl. by rewrite handlePaste_fold, Hnone. Qed.

Lemma paste_without_image_changes_nothing_witness :
  step session_loaded
    (Paste [{| item_type := "text/plain"; item_file := None |};
            {| item_type := "image/png"; item_file := None |};
            {| item_type := "text/html"; item_file := Some sample_webp |}])
  = session_loaded.
Proof. apply paste_without_image_changes_nothing. reflexivity. Defined.

Lemma ingest_all_effect r fs w :
  let w' := foldl (λ w f, exec (handleNewFile r f) w) w fs in
  tasks w' = (tasks w ++ (issued r <$> fs))%list
  ∧ next_url w' = next_url w + 2 * length fs
  ∧ revoked w' = revoked w
  ∧ convertedUrl (st w') = convertedUrl (st w)
  ∧ convertedBlob (st w') = convertedBlob (st w).
Proof.
  revert w. induction fs as [|f fs IH]; intros w.
  - cbn. rewrite app_nil_r, Nat.add_0_r. by repeat split.
  - cbn [foldl]. specialize (IH (exec (handleNewFile r f) w)).
    destruct (handleNewFile_effect r f w)
      as (_ & _ & Hcu & Hcb & _ & _ & _ & Hnext & Hrev & Htasks & _).
    cbv zeta in IH. destruct IH as (IHt & IHn & IHr & IHcu & IHcb).
    cbv zeta. rewrite IHt, IHn, IHr, IHcu, IHcb, Htasks, Hnext, Hrev, Hcu, Hcb.
    split; [by rewrite <- app_assoc|]. split; [cbn [length]; lia|done].
Qed.

Lemma ingest_all_last r fs f w :
  let w' := foldl (λ w f, exec (handleNewFile r f) w) w (fs ++ [f]) in
  file (st w') = Some f
  ∧ originalUrl (st w') = Some (next_url w + 2 * length fs).
Proof.
  cbv zeta. rewrite foldl_app. cbn [foldl].
  destruct (handleNewFile_effect r f (foldl (λ w f, exec (handleNewFile r f) w) w fs))
    as (Hfile & Hou & _).
  destruct (ingest_all_effect r fs w) as (_ & Hnext & _).
  by rewrite Hfile, Hou, Hnext.
Qed.

(** X2: a paste hands every image file of the clipboard to
    [handleNewFile], in order, and always with the handlers of the first
    render: one conversion is issued per file, each at the initial
    format and quality whatever the controls show; two locators are made
    per file and none is revoked; the converted image on display stays;
    the last file becomes the source on display. *)
Theorem paste_issues_one_conversion_per_image (w : World) (items : list ClipItem) :
  let w' := step w (Paste items) in
  let fs := pasted_files items in
  tasks w' = (tasks w ++ (issued initial_state <$> fs))%list
  ∧ next_url w' = next_url w + 2 * length fs
  ∧ revoked w' = revoked w
  ∧ convertedUrl (st w') = convertedUrl (st w)
  ∧ convertedBlob (st w') = convertedBlob (st w)
  ∧ (∀ f, last fs = Some f →
          file (st w') = Some f
          ∧ originalUrl (st w') = Some (next_url w + 2 * (length fs - 1))).
Proof.
  cbv zeta. simpl. rewrite handlePaste_fold.
  destruct (ingest_all_effect initial_state (pasted_files items) w)
    as (Ht & Hn & Hr & Hcu & Hcb).
  do 5 (split; [done|]).
  intros f Hlast. destruct (pasted_files items) as [|f0 fs _] using rev_ind; [done|].
  rewrite last_snoc in Hlast. injection Hlast as ->.
  destruct (ingest_all_last initial_state fs f w) as [-> ->].
  rewrite length_app. cbn. split; [done|]. f_equal. lia.
Qed.

(** X3: the conversion [handleNewFile] issues is the last one of the
    list, and when its image has loaded the encoder is called with the
    format and quality of the render that ingested the file, not with
    the format [autoConvert] has just set.  For the first file dropped
    that is JPEG at 0.8, whatever the file's type. *)
Theorem ingestion_encodes_at_ingesting_render (r : State) (f : File) (w : World) :
  let i := length (tasks w) in
  let w1 := exec (handleNewFile r f) w in
  tasks w1 !! i = Some (issued r f)
  ∧ task_stage <$> tasks (exec (img_onload i true) w1) !! i
    = Some (Encoding ("image/" ++ format_name (format r)) (quality r))
  ∧ (∀ acceptedFiles,
       task_stage <$> tasks (run initial_world [Drop (f :: acceptedFiles); ImgLoad 0 true]) !! 0%nat
       = Some (Encoding "image/jpeg" 0.8%float)).
Proof.
  cbv zeta.
  destruct (handleNewFile_effect r f w) as (_ & _ & _ & _ & _ & _ & _ & _ & _ & Htasks & _).
  split; [|split].
  - by rewrite Htasks, lookup_app_r, Nat.sub_diag.
  - by apply (img_onload_last_task _ (tasks w) (issued r f)).
  - intros fs. cbn [run foldl step view_mounted initial_world st originalUrl initial_state onDrop].
    apply (img_onload_last_task _ [] (issued initial_state f)); [|done].
    by destruct (handleNewFile_effect initial_state f initial_world)
      as (_ & _ & _ & _ & _ & _ & _ & _ & _ & -> & _).
Qed.

(** X4: when the canvas gives no 2D context, [img.onload] returns
    before it calls the encoder: state, URL store and revocation log are
    as before, and the conversion is over; neither a second load event
    nor an encoder callback for it has any effect. *)
Theorem missing_context_abandons_conversion (w : World) (i : nat) (t : Task) :
  tasks w !! i = Some t → task_stage t = Loading →
  let w1 := step w (ImgLoad i false) in
  st w1 = st w ∧ urls w1 = urls w ∧ next_url w1 = next_url w ∧ revoked w1 = revoked w
  ∧ tasks w1 !! i = Some (finish t)
  ∧ (∀ ctx, step w1 (ImgLoad i ctx) = w1)
  ∧ (∀ result, step w1 (BlobDone i result) = w1).
Proof.
  intros Hi Hst.
  assert (step w (ImgLoad i false) = exec (set_stage i t Finished) w) as ->.
  { cbn [step]. unfold exec, img_onload. rewrite Hi.
    destruct t as [r f stage]. simpl in Hst. by subst stage. }
  assert (i < length (tasks w)) as Hlt by (by eapply lookup_lt_Some).
  cbv zeta. cbn [exec set_stage snd st urls next_url revoked tasks].
  rewrite list_lookup_insert_eq by done.
  repeat split.
  - intros ctx. cbn [step]. unfold exec, img_onload. cbn [tasks].
    by rewrite list_lookup_insert_eq.
  - intros result. cbn [step]. unfold exec, toBlob_done. cbn [tasks].
    by rewrite list_lookup_insert_eq.
Qed.

Lemma missing_context_abandons_conversion_witness :
  let w := run session_loaded [FormatChange png] in
  let w1 := step w (ImgLoad 1 false) in
  st w1 = st w ∧ urls w1 = urls w ∧ next_url w1 = next_url w ∧ revoked w1 = revoked w
  ∧ tasks w1 !! 1%nat = Some (finish (issued (st session_loaded) sample_webp))
  ∧ (∀ ctx, step w1 (ImgLoad 1 ctx) = w1)
  ∧ (∀ result, step w1 (BlobDone 1 result) = w1).
Proof.
  exact (missing_context_abandons_conversion (run session_loaded [FormatChange png]) 1
           (issued (st session_loaded) sample_webp) eq_refl eq_refl).
Defined.

(** ** Download and reset *)

Lemma handleDownload_effect r b w :
  convertedBlob r = Some b →
  exec (handleDownload r) w =
  {| st := st w; urls := <[next_url w := OBlob b]> (urls w); next_url := S (next_url w);
     revoked := revoked w; tasks := tasks w;
     downloads := (downloads w ++ [(download_name r, next_url w)])%list |}.
Proof. intros Hb. unfold handleDownload. by rewrite Hb. Qed.

(** X5: every download makes a fresh locator of the converted blob,
    clicks an anchor named [converted.<format>] on it and never revokes
    it: after [k] downloads [k] more locators of the blob are live, and
    nothing else has changed. *)
Theorem downloads_leave_locators (w : World) (b : Blob) (k : nat) :
  view_mounted w = true → convertedBlob (st w) = Some b →
  let w' := run w (replicate k Download) in
  st w' = st w ∧ revoked w' = revoked w ∧ tasks w' = tasks w
  ∧ next_url w' = next_url w + k
  ∧ downloads w'
    = (downloads w
       ++ map (λ j, (download_name (st w), next_url w + j)) (seq 0 k))%list
  ∧ (∀ j, j < k → urls w' !! (next_url w + j) = Some (OBlob b))
  ∧ (∀ u, u < next_url w → urls w' !! u = urls w !! u).
Proof.
  intros Hm Hb. cbv zeta. induction k as [|k IH].
  - cbn. rewrite app_nil_r, Nat.add_0_r. repeat split; try done. intros j Hj. lia.
  - rewrite replicate_S_end. unfold run in *. rewrite foldl_app. cbn [foldl].
    destruct IH as (Hst & Hrev & Htasks & Hnext & Hdl & Hnew & Hold).
    set (wk := foldl step w (replicate k Download)) in *.
    assert (view_mounted wk = true) as Hmk by (unfold view_mounted; by rewrite Hst).
    cbn [step]. rewrite Hmk.
    rewrite (handleDownload_effect (st wk) b wk) by (by rewrite Hst).
    cbn [st urls next_url revoked tasks downloads].
    rewrite Hst, Hrev, Htasks, Hnext, Hdl, seq_S, map_app, <- app_assoc.
    split; [done|]. split; [done|]. split; [done|]. split; [lia|]. split; [done|]. split.
    + intros j Hj. destruct (decide (j = k)) as [->|Hne].
      * by rewrite lookup_insert_eq.
      * rewrite lookup_insert_ne by lia. apply Hnew. lia.
    + intros u Hu. rewrite lookup_insert_ne by lia. by apply Hold.
Qed.

Lemma downloads_leave_locators_witness :
  let b := {| blob_size := 100; blob_type := "image/jpeg"; blob_quality := 0.8;
              blob_source := sample_webp |} in
  let w' := run session_loaded [Download; Download] in
  st w' = st session_loaded ∧ revoked w' = revoked session_loaded
  ∧ tasks w' = tasks session_loaded
  ∧ next_url w' = 5
  ∧ downloads w' = [("converted.jpeg", 3); ("converted.jpeg", 4)]
  ∧ (∀ j, j < 2 → urls w' !! (3 + j) = Some (OBlob b))
  ∧ (∀ u, u < 3 → urls w' !! u = urls session_loaded !! u).
Proof.
  exact (downloads_leave_locators session_loaded
           {| blob_size := 100; blob_type := "image/jpeg"; blob_quality := 0.8;
              blob_source := sample_webp |} 2 eq_refl eq_refl).
Defined.

(** X6: reset cancels nothing.  A conversion that is waiting for the
    encoder when the user resets still publishes when the encoder
    delivers: the converted blob and a live locator of it are back in
    the state while no source is loaded and the drop zone is shown. *)
Theorem reset_does_not_cancel_conversions
    (w : World) (i : nat) (t : Task) (n : N) (b : Blob) :
  view_mounted w = true → tasks w !! i = Some t → delivered t n = Some b →
  let w' := run w [Reset; BlobDone i (Some n)] in
  file (st w') = None ∧ originalUrl (st w') = None ∧ view_mounted w' = false
  ∧ convertedBlob (st w') = Some b
  ∧ convertedUrl (st w') = Some (next_url w)
  ∧ urls w' !! next_url w = Some (OBlob b).
Proof.
  intros Hm Hi Hb. cbv zeta. cbn [run foldl step]. rewrite Hm.
  rewrite (toBlob_done_publishes (exec handleReset w) i t n b Hi Hb).
  cbn. repeat split. by rewrite lookup_insert_eq.
Qed.

Lemma reset_does_not_cancel_conversions_witness :
  let b := {| blob_size := 200; blob_type := "image/jpeg"; blob_quality := 0.8;
              blob_source := sample_webp |} in
  let w' := run session_encoding [Reset; BlobDone 1 (Some 200%N)] in
  file (st w') = None ∧ originalUrl (st w') = None ∧ view_mounted w' = false
  ∧ convertedBlob (st w') = Some b
  ∧ convertedUrl (st w') = Some 4
  ∧ urls w' !! 4 = Some (OBlob b).
Proof.
  exact (reset_does_not_cancel_conversions session_encoding 1
           {| task_render := st session_loaded; task_input := sample_webp;
              task_stage := Encoding "image/jpeg" 0.8 |} 200
           {| blob_size := 200; blob_type := "image/jpeg"; blob_quality := 0.8;
              blob_source := sample_webp |} eq_refl eq_refl eq_refl).
Defined.

(** ** Who revokes *)

Lemma extends_refl w : extends w w.
Proof. by repeat split. Qed.

Lemma extends_trans w1 w2 w3 : extends w1 w2 → extends w2 w3 → extends w1 w3.
Proof.
  intros (Hr1 & Hn1 & Hu1) (Hr2 & Hn2 & Hu2). split; [congruence|]. split; [lia|].
  intros u Hu. rewrite Hu2 by lia. by apply Hu1.
Qed.

Lemma extends_convertOnly r f w : extends w (exec (convertOnly r f) w).
Proof.
  split; [done|]. split; [cbn; lia|]. intros u Hu. cbn. rewrite lookup_insert_ne; [done|lia].
Qed.

Lemma extends_handleNewFile r f w : extends w (exec (handleNewFile r f) w).
Proof.
  destruct (handleNewFile_effect r f w)
    as (_ & _ & _ & _ & _ & _ & Hurls & Hnext & Hrev & _).
  split; [done|]. split; [lia|]. intros u Hu.
  rewrite Hurls, !lookup_insert_ne; [done|lia..].
Qed.

Lemma extends_ingest_all r fs w :
  extends w (foldl (λ w f, exec (handleNewFile r f) w) w fs).
Proof.
  revert w. induction fs as [|f fs IH]; intros w; [apply extends_refl|].
  cbn [foldl]. eapply extends_trans; [apply extends_handleNewFile|apply IH].
Qed.

Lemma img_onload_store i ctx w :
  let w' := exec (img_onload i ctx) w in
  st w' = st w ∧ urls w' = urls w ∧ next_url w' = next_url w ∧ revoked w' = revoked w
  ∧ downloads w' = downloads w.
Proof.
  unfold exec, img_onload. destruct (tasks w !! i) as [[r f [| |]]|]; try done.
  by destruct ctx.
Qed.

Lemma step_extends (w : World) (e : Event) :
  (∀ i result, e ≠ BlobDone i result) → extends w (step w e).
Proof.
  intros He. destruct e; cbn [step].
  - destruct (view_mounted w); [apply extends_refl|].
    destruct acceptedFiles as [|f fs]; [apply extends_refl|apply extends_handleNewFile].
  - rewrite handlePaste_fold. apply extends_ingest_all.
  - destruct (view_mounted w); [|apply extends_refl].
    unfold handleFormatChange. rewrite exec_bind.
    apply (extends_trans _ (exec (setFormat value) w)); [by repeat split|].
    destruct (file (st w)); [apply extends_convertOnly|apply extends_refl].
  - destruct (view_mounted w); [|apply extends_refl].
    unfold handleQualityChange. rewrite exec_bind.
    apply (extends_trans _ (exec (setQuality newQuality) w)); [by repeat split|].
    destruct (file (st w)); [apply extends_convertOnly|apply extends_refl].
  - by destruct (view_mounted w); repeat split.
  - destruct (view_mounted w); [|apply extends_refl].
    unfold handleDownload. destruct (convertedBlob (st w)); [|apply extends_refl].
    split; [done|]. split; [cbn; lia|]. intros u Hu. cbn.
    rewrite lookup_insert_ne; [done|lia].
  - by destruct (view_mounted w); repeat split.
  - by destruct (view_mounted w); repeat split.
  - by destruct (view_mounted w); repeat split.
  - destruct (img_onload_store i ctx w) as (_ & Hu & Hn & Hr & _).
    split; [done|]. split; [lia|]. intros u _. by rewrite Hu.
  - by destruct (He i result).
Qed.

(** X7: only the encoder's callback revokes.  Over any run of events
    without an encoder callback (drops, pastes, format and quality
    changes, resets, downloads, zooming, image loads) nothing is added
    to the revocation log and every locator made before still designates
    what it did; locators are only added. *)
Theorem only_the_encoder_callback_revokes (w : World) (es : list Event) :
  no_completion es → extends w (run w es).
Proof.
  revert w. induction es as [|e es IH]; intros w Hes; [apply extends_refl|].
  cbn. apply (extends_trans _ (step w e)).
  - apply step_extends. intros i result ->. apply (Hes i result). by left.
  - apply IH. intros i result Hin. apply (Hes i result). by right.
Qed.

Lemma only_the_encoder_callback_revokes_witness :
  extends session_loaded
    (run session_loaded [FormatChange png; ImgLoad 1 true; Download; Reset;
                         Drop [sample_webp]; ZoomIn]).
Proof.
  apply only_the_encoder_callback_revokes.
  intros i result Hin. repeat (apply elem_of_cons in Hin as [Hin|Hin]; [discriminate Hin|]).
  by apply elem_of_nil in Hin.
Defined.

Lemma completion_or_not e :
  (∃ i result, e = BlobDone i result) ∨ (∀ i result, e ≠ BlobDone i result).
Proof. destruct e; try (by right); left; eauto. Qed.

Lemma toBlob_done_cases i result w :
  (∃ t n b, result = Some n ∧ tasks w !! i = Some t ∧ delivered t n = Some b)
  ∨ (st (exec (toBlob_done i result) w) = st w
     ∧ urls (exec (toBlob_done i result) w) = urls w
     ∧ next_url (exec (toBlob_done i result) w) = next_url w
     ∧ revoked (exec (toBlob_done i result) w) = revoked w).
Proof.
  unfold exec, toBlob_done, delivered.
  destruct (tasks w !! i) as [[r f [|m q|]]|]; try (by right).
  destruct result as [n|]; [|by right]. left. by eexists _, n, _.
Qed.

Lemma revoke_known_keeps_files w i t u f :
  sound w → tasks w !! i = Some t →
  revoke_known (task_render t) (urls w) !! u = Some (OFile f) ↔ urls w !! u = Some (OFile f).
Proof.
  intros Hw Hi. unfold revoke_known.
  destruct (convertedUrl (task_render t)) as [c|] eqn:Hc; [|done].
  rewrite lookup_delete_Some. split; [by intros [_ ?]|]. intros Hu. split; [|done].
  intros ->. destruct (sound_known w Hw i t Hi u Hc) as [_ Hnf]. by destruct (Hnf f).
Qed.

Lemma keeps_files_step w e : sound w → keeps_files w (step w e).
Proof.
  intros Hw u f Hu.
  assert (u < next_url w) as Hlt by (apply (sound_fresh w Hw); eauto).
  destruct (completion_or_not e) as [(i & result & ->)|Hne].
  - cbn [step]. destruct (toBlob_done_cases i result w)
      as [(t & n & b & -> & Hi & Hb)|(_ & -> & _)]; [|done].
    rewrite (toBlob_done_publishes w i t n b Hi Hb). cbn [urls].
    rewrite lookup_insert_ne by lia. by apply (revoke_known_keeps_files w i).
  - destruct (step_extends w e) as (_ & _ & Hsame).
    + done.
    + by rewrite Hsame.
Qed.

(** X8: a locator of a source file, once made, is live for the rest of
    the session, whatever happens next: the component never revokes the
    locators [handleNewFile] and [convertOnly] make of the file. *)
Theorem source_locators_are_never_revoked (es es' : list Event) (u : nat) (f : File) :
  urls (run initial_world es) !! u = Some (OFile f) →
  urls (run initial_world (es ++ es')) !! u = Some (OFile f).
Proof.
  unfold run. rewrite foldl_app.
  pose proof (sound_run es initial_world sound_initial) as Hs. unfold run in Hs.
  generalize dependent (foldl step initial_world es). clear es.
  induction es' as [|e es' IH]; intros w Hs Hu; [done|].
  cbn [foldl]. apply IH; [by apply sound_step|by apply keeps_files_step].
Qed.

Lemma source_locators_are_never_revoked_witness :
  urls (run initial_world
          ([Drop [sample_webp]; ImgLoad 0 true; BlobDone 0 (Some 100%N)]
           ++ [Reset; Drop [sample_webp]; ImgLoad 1 true; BlobDone 1 (Some 7%N)])%list)
    !! 1 = Some (OFile sample_webp).
Proof.
  exact (source_locators_are_never_revoked
           [Drop [sample_webp]; ImgLoad 0 true; BlobDone 0 (Some 100%N)]
           [Reset; Drop [sample_webp]; ImgLoad 1 true; BlobDone 1 (Some 7%N)]
           1 sample_webp eq_refl).
Defined.

Lemma revoked_dead_step w e : sound w → revoked_dead w → revoked_dead (step w e).
Proof.
  intros Hw Hdead.
  destruct (completion_or_not e) as [(i & result & ->)|Hne].
  - cbn [step]. destruct (toBlob_done_cases i result w)
      as [(t & n & b & -> & Hi & Hb)|(_ & Hu & Hn & Hr)].
    + rewrite (toBlob_done_publishes w i t n b Hi Hb). intros u. cbn [revoked urls next_url].
      unfold revocation_known, revoke_known. intros Hin.
      assert (u < next_url w ∧
              match convertedUrl (task_render t) with
              | Some c => delete c (urls w)
              | None => urls w
              end !! u = None) as [Hlt Hgone].
      { destruct (convertedUrl (task_render t)) as [c|] eqn:Hc;
          [|by destruct (Hdead u Hin)].
        apply elem_of_cons in Hin as [->|Hin].
        - split; [by apply (sound_known w Hw i t Hi c Hc)|apply lookup_delete_eq].
        - destruct (Hdead u Hin) as [Hn Hlt]. split; [done|].
          apply lookup_delete_None. by right. }
      split; [|lia]. rewrite lookup_insert_ne; [done|lia].
    + intros u. rewrite Hr, Hu, Hn. apply Hdead.
  - destruct (step_extends w e) as (Hr & Hn & Hsame).
    + done.
    + intros u. rewrite Hr. intros Hin. destruct (Hdead u Hin) as [Hnone Hlt].
      split; [|lia]. by rewrite Hsame.
Qed.

Lemma revoked_dead_run es w : sound w → revoked_dead w → revoked_dead (run w es).
Proof.
  revert w. induction es as [|e es IH]; intros w Hs Hd; [done|].
  cbn. apply IH; [by apply sound_step|by apply revoked_dead_step].
Qed.

(** X9: in every session a revoked locator is not live, every live
    locator is below the counter of fresh locators, and that counter
    never goes down: no locator is handed out twice, and none comes back
    to life after it was revoked. *)
Theorem revoked_locators_stay_dead (es : list Event) (u : nat) :
  let w := run initial_world es in
  (u ∈ revoked w → ¬ Spec.live w u ∧ u < next_url w)
  ∧ (Spec.live w u → u < next_url w)
  ∧ (∀ e, next_url w ≤ next_url (step w e)).
Proof.
  cbv zeta. pose proof (sound_run es initial_world sound_initial) as Hs.
  split; [|split].
  - intros Hin. destruct (revoked_dead_run es initial_world sound_initial) with (u := u)
      as [Hnone Hlt]; [by intros ? ?%elem_of_nil|done|].
    split; [|done]. intros [x Hx]. congruence.
  - apply (sound_fresh _ Hs).
  - intros e. destruct (completion_or_not e) as [(i & result & ->)|Hne].
    + cbn [step]. destruct (toBlob_done_cases i result (run initial_world es))
        as [(t & n & b & -> & Hi & Hb)|(_ & _ & -> & _)]; [|done].
      rewrite (toBlob_done_publishes _ i t n b Hi Hb). cbn. lia.
    + by apply step_extends.
Qed.

(** ** Where the blob on display comes from *)

Lemma traceable_initial : traceable initial_world.
Proof. by split. Qed.

(** New conversions and unrelated state changes. *)
Lemma traceable_issue r fs w w' :
  traceable w → tasks w' = (tasks w ++ (issued r <$> fs))%list →
  convertedBlob (st w') = convertedBlob (st w) → traceable w'.
Proof.
  intros [Henc Hdisp] Ht Hb. split.
  - intros i t m q. rewrite Ht. intros [Hi|[_ Hi]]%lookup_app_Some Hst; [by eapply Henc|].
    apply list_lookup_fmap_Some in Hi as (f & -> & _). discriminate Hst.
  - intros b. rewrite Hb. intros (i & t & Hi & Hfin & Hby)%Hdisp.
    exists i, t. rewrite Ht. split; [|done]. by apply lookup_app_l_Some.
Qed.

(** A conversion that is not finished moves to another stage. *)
Lemma traceable_set_stage i t s w :
  traceable w → tasks w !! i = Some t → task_stage t ≠ Finished →
  (∀ mime q, s = Encoding mime q →
             mime = "image/" ++ format_name (format (task_render t))
             ∧ q = quality (task_render t)) →
  traceable (exec (set_stage i t s) w).
Proof.
  intros [Henc Hdisp] Hi Hnf Hs. split; cbn.
  - intros j tj m q [(-> & <- & _)|[Hne Hj]]%list_lookup_insert_Some Hst.
    + by apply Hs.
    + by eapply Henc.
  - intros b (j & tj & Hj & Hfin & Hby)%Hdisp. exists j, tj. split; [|done].
    rewrite list_lookup_insert_ne; [done|]. intros <-. congruence.
Qed.

Lemma traceable_step w e : traceable w → traceable (step w e).
Proof.
  intros Hw. destruct e; cbn [step].
  - destruct (view_mounted w); [done|]. destruct acceptedFiles as [|f fs]; [done|].
    destruct (handleNewFile_effect (st w) f w)
      as (_ & _ & _ & Hcb & _ & _ & _ & _ & _ & Ht & _).
    by apply (traceable_issue (st w) [f] w).
  - rewrite handlePaste_fold.
    destruct (ingest_all_effect initial_state (pasted_files items) w)
      as (Ht & _ & _ & _ & Hcb).
    by apply (traceable_issue initial_state (pasted_files items) w).
  - destruct (view_mounted w); [|done]. unfold handleFormatChange.
    destruct (file (st w)) as [f|].
    + by apply (traceable_issue (st w) [f] w).
    + apply (traceable_issue (st w) [] w); [done| |done]. cbn. by rewrite app_nil_r.
  - destruct (view_mounted w); [|done]. unfold handleQualityChange.
    destruct (file (st w)) as [f|].
    + by apply (traceable_issue (st w) [f] w).
    + apply (traceable_issue (st w) [] w); [done| |done]. cbn. by rewrite app_nil_r.
  - destruct (view_mounted w); [|done]. destruct Hw as [Henc _]. by split.
  - destruct (view_mounted w); [|done]. unfold handleDownload.
    destruct (convertedBlob (st w)); [|done].
    apply (traceable_issue (st w) [] w); [done| |done]. cbn. by rewrite app_nil_r.
  - destruct (view_mounted w); [|done].
    apply (traceable_issue (st w) [] w); [done| |done]. cbn. by rewrite app_nil_r.
  - destruct (view_mounted w); [|done].
    apply (traceable_issue (st w) [] w); [done| |done]. cbn. by rewrite app_nil_r.
  - destruct (view_mounted w); [|done].
    apply (traceable_issue (st w) [] w); [done| |done]. cbn. by rewrite app_nil_r.
  - unfold exec at 1, img_onload.
    destruct (tasks w !! i) as [[r f [| |]]|] eqn:Hi; try done.
    destruct ctx; cbn [negb]; (eapply traceable_set_stage; [done|done|done|]).
    + intros m q [= <- <-]. done.
    + intros m q [=].
  - destruct (tasks w !! i) as [t|] eqn:Hi; [|by unfold exec, toBlob_done; rewrite Hi].
    destruct (task_stage t) as [|m q|] eqn:Hst.
    + unfold exec, toBlob_done. rewrite Hi. destruct t; simpl in Hst. by subst.
    + assert (in_flight t = true) as Hfl by (unfold in_flight; by rewrite Hst).
      assert (traceable (exec (set_stage i t Finished) w)) as Hfin.
      { apply traceable_set_stage; [done|done|congruence|]. intros ?? [=]. }
      destruct result as [n|]; [|by rewrite (toBlob_done_null w i t Hi Hfl) by congruence].
      assert (delivered t n = Some {| blob_size := n; blob_type := m; blob_quality := q;
                                      blob_source := task_input t |}) as Hb
        by (unfold delivered; by rewrite Hst).
      rewrite (toBlob_done_publishes w i t n _ Hi Hb).
      destruct Hfin as [Henc _]. split; [exact Henc|]. cbn.
      intros b [= <-]. exists i, (finish t).
      split; [apply list_lookup_insert_eq; by eapply lookup_lt_Some|]. split; [done|].
      destruct (trace_encoding w Hw i t m q Hi Hst) as [-> ->]. by repeat split.
    + unfold exec, toBlob_done. rewrite Hi. destruct t; simpl in Hst. by subst.
Qed.

(** X10: in every session the blob on display was delivered to a
    conversion of this session that is finished, and was encoded from
    that conversion's input file at the format and quality of the render
    that issued the conversion. *)
Theorem displayed_blob_is_traceable (es : list Event) (b : Blob) :
  let w := run initial_world es in
  convertedBlob (st w) = Some b →
  ∃ i t, tasks w !! i = Some t ∧ task_stage t = Finished ∧ encoded_by b t.
Proof.
  cbv zeta. apply trace_displayed. generalize traceable_initial.
  generalize initial_world. induction es as [|e es IH]; intros w Hw; [done|].
  cbn. by apply IH, traceable_step.
Qed.

Lemma displayed_blob_is_traceable_witness :
  ∃ i t, tasks (run initial_world session_sequential) !! i = Some t
         ∧ task_stage t = Finished
         ∧ encoded_by {| blob_size := 90; blob_type := "image/png"; blob_quality := 0.8;
                         blob_source := sample_webp |} t.
Proof.
  exact (displayed_blob_is_traceable session_sequential
           {| blob_size := 90; blob_type := "image/png"; blob_quality := 0.8;
              blob_source := sample_webp |} eq_refl).
Defined.

(** ** The slider as a state machine *)

Lemma moveSlider_last x y d :
  Slider.moveSlider y (Slider.moveSlider x d) = Slider.moveSlider y d.
Proof.
  unfold Slider.moveSlider.
  destruct (Slider.containerRef d) eqn:Hc, (Slider.clipRef d) eqn:Hclip,
    (Slider.dividerRef d) eqn:Hdiv; cbn; by rewrite ?Hc, ?Hclip, ?Hdiv.
Qed.

Lemma pointer_move_last x y d :
  Slider.pointer_move y (Slider.pointer_move x d) = Slider.pointer_move y d.
Proof.
  unfold Slider.pointer_move. destruct (Slider.listening d) eqn:Hl; [|by rewrite Hl].
  assert (Slider.listening (Slider.moveSlider x d) = true) as ->.
  { unfold Slider.moveSlider.
    by destruct (Slider.containerRef d), (Slider.clipRef d), (Slider.dividerRef d). }
  apply moveSlider_last.
Qed.

(** X11: the split keeps no history.  After any run of pointer moves
    the slider is where a single move to the last position would have
    put it. *)
Theorem last_pointer_position_wins (d : Slider.Dom) (xs : list float) (y : float) :
  slider_run d (PointerMove <$> (xs ++ [y])%list) = Slider.pointer_move y d.
Proof.
  unfold slider_run. rewrite fmap_app, foldl_app. cbn [fmap list_fmap foldl slider_step].
  induction xs as [|x xs IH] using rev_ind; [done|].
  rewrite fmap_app, foldl_app. cbn [fmap list_fmap foldl slider_step].
  by rewrite pointer_move_last.
Qed.




(** X13: divider and clip never get out of step.  From the view as it
    is mounted, after any run of pointer events over a container of any
    geometry, the container is the same, the clip of the converted layer
    is [inset(0 (100 - pos)% 0 0)] for the very [pos] the divider is at,
    and [pos] lies in [0, 100] unless it is NaN. *)
Theorem split_stays_in_sync (rect : Slider.Rect) (es : list SliderEvent) :
  let d := slider_run (mounted_dom rect) es in
  Slider.containerRef d = Some rect
  ∧ ∃ pos, split_at d pos
           ∧ (pos = nan ∨ ((0 <=? pos)%float = true ∧ (pos <=? 100)%float = true)).
Proof.
  cbv zeta.
  assert (Slider.containerRef (mounted_dom rect) = Some rect
          ∧ ∃ pos, split_at (mounted_dom rect) pos
                   ∧ (pos = nan ∨ ((0 <=? pos)%float = true ∧ (pos <=? 100)%float = true)))
    as Hinit.
  { split; [done|]. exists 50%float. split; [by split|]. right. by split. }
  revert Hinit. generalize (mounted_dom rect).
  induction es as [|e es IH]; intros d Hd; [done|].
  cbn [slider_run foldl]. apply IH. destruct Hd as [Hc (pos & [Hdiv Hclip] & Hpos)].
  destruct e as [[]|x|]; cbn.
  - split; [done|]. by exists pos.
  - split; [done|]. by exists pos.
  - unfold Slider.pointer_move.
    destruct (Slider.listening d); [|split; [done|by exists pos]].
    unfold Slider.moveSlider. rewrite Hc, Hdiv, Hclip. cbn. split; [done|].
    eexists. split; [by split|]. rewrite clamp_as_min_max.
    destruct (clamp_range ((x - Slider.left rect) / Slider.width rect * 100))
      as [[_ ->]|(_ & Hlo & Hhi)]; [by left|by right].
  - unfold Slider.stopDrag. destruct (Slider.isDragging d); (split; [done|by exists pos]).
Qed.

(** ** Byte-size labels in integer arithmetic *)

Lemma toFixed1_digits_tenths (n : Z) (d : positive) :
  JS.toFixed1_digits (inject_Z n / inject_Z (Z.pos (2 * d))) = tenths n (Z.pos (2 * d)).
Proof.
  unfold JS.toFixed1_digits, tenths.
  assert (Z.pos (2 * d) / 2 = Z.pos d)%Z as ->
    by (rewrite Pos2Z.inj_mul, Z.mul_comm; apply Z.div_mul; lia).
  transitivity (Qfloor ((10 * n + Z.pos d) # (2 * d))); [|done].
  apply Qfloor_comp. unfold Qeq, Qdiv, Qmult, Qplus, Qinv, inject_Z. cbn. lia.
Qed.

Lemma formatFileSize_closed_form (n : N) :
  formatFileSize n =
  if (n <? 1024)%N then JS.Number_toString n ++ " B"
  else if (n <? 1048576)%N then JS.print_tenths (tenths (Z.of_N n) 1024) ++ " KB"
  else JS.print_tenths (tenths (Z.of_N n) 1048576) ++ " MB".
Proof.
  unfold formatFileSize, JS.Number_toFixed1.
  change (1024 * 1024)%N with 1048576%N.
  change (1024 * 1024)%Q with (inject_Z (Z.pos (2 * 524288))).
  change 1024%Q with (inject_Z (Z.pos (2 * 512))).
  by rewrite !toFixed1_digits_tenths.
Qed.

Lemma tenths_bounds (n d lo hi : Z) :
  (0 < d)%Z → (lo * d ≤ 10 * n + d / 2 < (hi + 1) * d)%Z → (lo ≤ tenths n d ≤ hi)%Z.
Proof.
  intros Hd [Hlo Hhi]. unfold tenths. split.
  - apply Z.div_le_lower_bound; lia.
  - apply Z.lt_succ_r, Z.div_lt_upper_bound; lia.
Qed.

(** X14: the unit changes at 1048576 bytes, not where the rounded
    number of kilobytes reaches 1024: the last 51 byte sizes below one
    megabyte are shown as "1024.0 KB". *)
Theorem kilobyte_label_reaches_1024 (n : N) :
  (1048525 ≤ n < 1048576)%N → formatFileSize n = "1024.0 KB".
Proof.
  intros [Hlo Hhi]. rewrite formatFileSize_closed_form.
  assert ((n <? 1024)%N = false) as -> by (apply N.ltb_ge; lia).
  apply N.ltb_lt in Hhi as Hlt. rewrite Hlt.
  assert (tenths (Z.of_N n) 1024 = 10240%Z) as ->; [|done].
  assert (10240 ≤ tenths (Z.of_N n) 1024 ≤ 10240)%Z; [|lia].
  apply tenths_bounds; [done|]. change (1024 / 2)%Z with 512%Z. lia.
Qed.

Lemma kilobyte_label_reaches_1024_witness :
  formatFileSize 1048524 = "1023.9 KB"
  ∧ formatFileSize 1048525 = "1024.0 KB"
  ∧ formatFileSize 1048575 = "1024.0 KB"
  ∧ formatFileSize 1048576 = "1.0 MB".
Proof.
  split; [by vm_compute|]. split; [|split; [|by vm_compute]].
  - apply kilobyte_label_reaches_1024. lia.
  - apply kilobyte_label_reaches_1024. lia.
Defined.

(** ** The zoom label *)

Lemma zoom_values_labels z : In z zoom_values → label_steps_by_ten z = true.
Proof.
  assert (forallb label_steps_by_ten zoom_values = true) as Hall by (vm_compute; reflexivity).
  rewrite forallb_forall in Hall. apply Hall.
Qed.

Lemma ingest_all_zoom r fs w :
  zoomLevel (st (foldl (λ w f, exec (handleNewFile r f) w) w fs)) = zoomLevel (st w).
Proof.
  revert w. induction fs as [|f fs IH]; intros w; [done|].
  cbn [foldl]. rewrite IH.
  by destruct (handleNewFile_effect r f w) as (_ & _ & _ & _ & _ & -> & _).
Qed.

Lemma step_zoom w e :
  zoomLevel (st (step w e)) = zoomLevel (st w)
  ∨ zoomLevel (st (step w e)) = 1%float
  ∨ ∃ a, zoomLevel (st (step w e)) = zoom_after a (zoomLevel (st w)).
Proof.
  destruct e; cbn [step].
  - left. destruct (view_mounted w); [done|]. destruct acceptedFiles as [|f fs]; [done|].
    unfold onDrop.
    by destruct (handleNewFile_effect (st w) f w) as (_ & _ & _ & _ & _ & -> & _).
  - left. rewrite handlePaste_fold. apply ingest_all_zoom.
  - left. destruct (view_mounted w); [|done]. unfold handleFormatChange.
    by destruct (file (st w)).
  - left. destruct (view_mounted w); [|done]. unfold handleQualityChange.
    by destruct (file (st w)).
  - destruct (view_mounted w); [right; by left|by left].
  - left. destruct (view_mounted w); [|done]. unfold handleDownload.
    by destruct (convertedBlob (st w)).
  - destruct (view_mounted w); [|by left]. right; right. exists zoom_in.
    apply (zoom_handler_level zoom_in).
  - destruct (view_mounted w); [|by left]. right; right. exists zoom_out.
    apply (zoom_handler_level zoom_out).
  - destruct (view_mounted w); [|by left]. right; by left.
  - left. by destruct (img_onload_store i ctx w) as (-> & _).
  - left. destruct (toBlob_done_cases i result w)
      as [(t & n & b & -> & Hi & Hb)|(-> & _)]; [|done].
    by rewrite (toBlob_done_publishes w i t n b Hi Hb).
Qed.

Lemma session_zoom_values es :
  In (zoomLevel (st (run initial_world es))) zoom_values.
Proof.
  generalize zoom_values_default. change 1%float with (zoomLevel (st initial_world)).
  generalize initial_world. induction es as [|e es IH]; intros w Hw; [done|].
  cbn. apply IH. destruct (step_zoom w e) as [->|[->|[a ->]]].
  - done.
  - apply zoom_values_default.
  - by apply zoom_values_closed.
Qed.

(** X15: in every session, whatever else has happened, the zoom label
    [Math.round(zoomLevel * 100)] shows a multiple of ten between 50 and
    300; zoom-in and zoom-out move it by exactly ten, up to 300 and down
    to 50, and zoom-fit sets it to 100: the rounding errors of the
    repeated additions of 0.1 never reach the label. *)
Theorem zoom_label_steps_by_ten (es : list Event) :
  let w := run initial_world es in
  ∃ k : Z,
    (5 ≤ k ≤ 30)%Z
    ∧ zoomPercent (st w) = Some (10 * k)%Z
    ∧ zoomPercent (st (exec zoomIn w)) = Some (10 * Z.min (k + 1) 30)%Z
    ∧ zoomPercent (st (exec zoomOut w)) = Some (10 * Z.max (k - 1) 5)%Z
    ∧ zoomPercent (st (exec zoomFit w)) = Some 100%Z.
Proof.
  cbv zeta. pose proof (zoom_values_labels _ (session_zoom_values es)) as H.
  unfold label_steps_by_ten in H. unfold zoomPercent.
  rewrite (zoom_handler_level zoom_in), (zoom_handler_level zoom_out).
  change (Math_round (?z * 100)%float) with (label_at z).
  generalize dependent (zoomLevel (st (run initial_world es))). intros z H.
  destruct (label_at z) as [p|]; [|done].
  apply andb_true_iff in H as [H Hout]. apply andb_true_iff in H as [H Hin].
  apply andb_true_iff in H as [H Hmod]. apply andb_true_iff in H as [Hlo Hhi].
  apply bool_decide_eq_true in Hout, Hin.
  apply Z.leb_le in Hlo, Hhi. apply Z.eqb_eq in Hmod.
  exists (p / 10)%Z.
  assert (p = 10 * (p / 10))%Z as Hp by (apply Z.div_exact; lia).
  split; [lia|]. split; [congruence|]. split; [|split].
  - rewrite Hin. f_equal. lia.
  - rewrite Hout. f_equal. lia.
  - vm_compute. reflexivity.
Qed.

Lemma zoom_level_fold acts w :
  zoomLevel (st (zoom w acts)) = foldl (λ z a, zoom_after a z) (zoomLevel (st w)) acts.
Proof.
  revert w. induction acts as [|a acts IH]; intros w; [done|].
  cbn. by rewrite IH, zoom_handler_level.
Qed.

Lemma zoom_values_saturate z :
  In z zoom_values →
  foldl (λ z a, zoom_after a z) z (replicate 25 zoom_in) = 3%float
  ∧ foldl (λ z a, zoom_after a z) z (replicate 25 zoom_out) = 0.5%float.
Proof.
  revert z. apply List.Forall_forall. unfold zoom_values.
  repeat (apply List.Forall_cons; [split; vm_compute; reflexivity|]).
  apply List.Forall_nil.
Qed.

Lemma zoom_stays_at_bound (a : ZoomAction) (b : float) (n : nat) :
  zoom_after a b = b → foldl (λ z a, zoom_after a z) b (replicate n a) = b.
Proof.
  intros Hb. induction n as [|n IH]; [reflexivity|].
  cbn [replicate foldl]. rewrite Hb. exact IH.
Qed.

(** X16: both bounds are reached exactly.  From any level a session can
    be at, 25 clicks on zoom-in (or more) end at exactly 3, and 25 clicks
    on zoom-out (or more) at exactly 0.5. *)
Theorem zoom_bounds_are_reached (es : list Event) (extra : nat) :
  let w := run initial_world es in
  zoomLevel (st (zoom w (replicate (25 + extra) zoom_in))) = 3%float
  ∧ zoomLevel (st (zoom w (replicate (25 + extra) zoom_out))) = 0.5%float.
Proof.
  cbv zeta. rewrite !zoom_level_fold.
  rewrite (replicate_add 25 extra zoom_in), (replicate_add 25 extra zoom_out), !foldl_app.
  destruct (zoom_values_saturate _ (session_zoom_values es)) as [-> ->].
  split; apply zoom_stays_at_bound; vm_compute; reflexivity.
Qed.
